(** * libnfs4acl-go: the NFSv4 ACL codec of [system.nfs4_acl]

    A shallow embedding of the Go package [nfs4acl] (files [nfs4_acl.go]
    and the ACE file that declares [NFS4ACE]) and the properties of its
    binary codec, its mask mutations and its renderer.

    Conventions of the embedding.
    - A Go [uint32] is a [Z] in [0, 2^32); the conversion [uint32(x)] is
      [uint32 x], reduction modulo 2^32.  A Go [byte] is [Byte.byte].
    - A Go [int] is the 64-bit signed integer of the platforms the package
      targets (it imports [golang.org/x/sys/unix]); every [int] addition and
      multiplication of the source is wrapped in [int], the two's complement
      reduction.  A Go [uint] (the who type) is a [Z] in [0, 2^64).
    - A Go [string] is a byte sequence; [String.string] is one too (an
      [ascii] is eight bits), [len(s)] is [String.length s] and
      [string(bytes)] is [string_of_list_byte].
    - A run-time panic (index or slice bounds out of range) is the outcome
      [Panic] of the monad [go]; a Go function with results [(v, err)]
      returns the pair [(v, err)] with [err : option error], [None] for
      [nil].
    - [acl.aceList] is a slice of pointers to ACEs that the package itself
      allocates one by one ([NewNFS4ACE]), so no two entries alias and the
      in-place updates of the mutators are updates of a [list NFS4ACE]. *)

From Stdlib Require Import ZArith Lia Strings.String Strings.Ascii Init.Byte Strings.Byte.
From stdpp Require Import base list.

Open Scope Z_scope.

(** ** Go values *)

Module Go.

Definition MaxInt : Z := 2 ^ 63 - 1.
Definition MinInt : Z := - 2 ^ 63.

(** Two's complement reduction to a 64-bit [int]. *)
Definition int (z : Z) : Z := (z + 2 ^ 63) mod 2 ^ 64 - 2 ^ 63.

(** The conversion [uint32(z)]. *)
Definition uint32 (z : Z) : Z := z mod 2 ^ 32.

Definition is_uint32 (z : Z) : Prop := 0 <= z < 2 ^ 32.

(** The numeric value of a byte and the conversion [byte(z)]. *)
Definition byte_val (b : byte) : Z := Z.of_N (Byte.to_N b).

Definition to_byte (z : Z) : byte :=
  match Byte.of_N (Z.to_N (z mod 256)) with
  | Some b => b
  | None => x00
  end.

(** [len(s)] for a slice and for a string. *)
Definition len {A} (s : list A) : Z := Z.of_nat (length s).
Definition strlen (s : string) : Z := Z.of_nat (String.length s).

(** Outcomes of a Go computation: a value, or a run-time panic. *)
Inductive go (A : Type) : Type :=
| Done (a : A)
| Panic.
Arguments Done {A} a.
Arguments Panic {A}.

Definition go_bind {A B} (m : go A) (k : A -> go B) : go B :=
  match m with
  | Done a => k a
  | Panic => Panic
  end.

(** [errors.New(msg)] : an error is identified by its message. *)
Definition error : Type := string.
Definition errors_New (msg : string) : error := msg.

(** The slice expression [s[lo:]]: in range when [0 <= lo <= len(s)]. *)
Definition slice_from {A} (s : list A) (lo : Z) : go (list A) :=
  if (0 <=? lo) && (lo <=? len s) then Done (drop (Z.to_nat lo) s) else Panic.

(** The slice expression [s[lo:hi]] on a slice [s] whose backing array
    continues with [spare] beyond [len(s)]: Go checks [hi] against the
    capacity, [0 <= lo <= hi <= cap(s)], not against the length. *)
Definition slice_cap {A} (s spare : list A) (lo hi : Z) : go (list A) :=
  if (0 <=? lo) && (lo <=? hi) && (hi <=? len (s ++ spare))
  then Done (take (Z.to_nat (hi - lo)) (drop (Z.to_nat lo) (s ++ spare)))
  else Panic.

(** [make([]byte, n, n)]: a zero-filled slice; panics for a negative [n]. *)
Definition make_bytes (n : Z) : go (list byte) :=
  if n <? 0 then Panic else Done (replicate (Z.to_nat n) x00).

(** [binary.BigEndian.Uint32(b)]: indexes [b[3]] first. *)
Definition Uint32 (b : list byte) : go Z :=
  match b with
  | b0 :: b1 :: b2 :: b3 :: _ =>
      Done (Z.lor (Z.lor (Z.lor (byte_val b3) (Z.shiftl (byte_val b2) 8))
                         (Z.shiftl (byte_val b1) 16))
                  (Z.shiftl (byte_val b0) 24))
  | _ => Panic
  end.

(** The four bytes [binary.BigEndian.PutUint32] stores for [v]. *)
Definition be32 (v : Z) : list byte :=
  [to_byte (Z.shiftr v 24); to_byte (Z.shiftr v 16); to_byte (Z.shiftr v 8); to_byte v].

(** [binary.BigEndian.PutUint32(buf[off:], v)]: the write goes through the
    sub-slice into the array of [buf]; the result is [buf] afterwards. *)
Definition PutUint32_at (buf : list byte) (off : Z) (v : Z) : go (list byte) :=
  go_bind (slice_from buf off) (fun dst =>
    match dst with
    | _ :: _ :: _ :: _ :: rest => Done (take (Z.to_nat off) buf ++ be32 v ++ rest)
    | _ => Panic
    end).

(** [copy(buf[off:], src)]: copies [min(len(dst), len(src))] bytes. *)
Definition copy_at (buf : list byte) (off : Z) (src : list byte) : go (list byte) :=
  go_bind (slice_from buf off) (fun dst =>
    let n := Nat.min (length dst) (length src) in
    Done (take (Z.to_nat off) buf ++ take n src ++ drop n dst)).

End Go.
Import Go.

Notation "x <- m ;; k" := (go_bind m (fun x => k))
  (at level 20, m at level 99, k at level 200, only parsing).

(** ** Constants of [nfs4_acl.go] *)

(** [ATOM_SIZE = int(unsafe.Sizeof(uint32(0)))]. *)
Definition ATOM_SIZE : Z := 4.

Definition NFS4_ACL_WHO_OWNER_STRING : string := "OWNER@".
Definition NFS4_ACL_WHO_GROUP_STRING : string := "GROUP@".
Definition NFS4_ACL_WHO_EVERYONE_STRING : string := "EVERYONE@".

Definition NFS4_ACL_WHO_NAMED : Z := 0.
Definition NFS4_ACL_WHO_OWNER : Z := 1.
Definition NFS4_ACL_WHO_GROUP : Z := 2.
Definition NFS4_ACL_WHO_EVERYONE : Z := 3.

Definition NFS4_ACE_ACCESS_ALLOWED_ACE_TYPE : Z := 0.
Definition NFS4_ACE_ACCESS_DENIED_ACE_TYPE : Z := 1.
Definition NFS4_ACE_SYSTEM_AUDIT_ACE_TYPE : Z := 2.
Definition NFS4_ACE_SYSTEM_ALARM_ACE_TYPE : Z := 3.

Definition TYPE_ALLOW : ascii := "A".
Definition TYPE_DENY : ascii := "D".
Definition TYPE_AUDIT : ascii := "U".
Definition TYPE_ALARM : ascii := "L".

(** [1 << iota]. *)
Definition NFS4_ACE_FILE_INHERIT_ACE : Z := Z.shiftl 1 0.
Definition NFS4_ACE_DIRECTORY_INHERIT_ACE : Z := Z.shiftl 1 1.
Definition NFS4_ACE_NO_PROPAGATE_INHERIT_ACE : Z := Z.shiftl 1 2.
Definition NFS4_ACE_INHERIT_ONLY_ACE : Z := Z.shiftl 1 3.
Definition NFS4_ACE_SUCCESSFUL_ACCESS_ACE_FLAG : Z := Z.shiftl 1 4.
Definition NFS4_ACE_FAILED_ACCESS_ACE_FLAG : Z := Z.shiftl 1 5.
Definition NFS4_ACE_IDENTIFIER_GROUP : Z := Z.shiftl 1 6.
Definition NFS4_ACE_OWNER : Z := Z.shiftl 1 7.
Definition NFS4_ACE_GROUP : Z := Z.shiftl 1 8.
Definition NFS4_ACE_EVERYONE : Z := Z.shiftl 1 9.

Definition FLAG_FILE_INHERIT : ascii := "f".
Definition FLAG_DIR_INHERIT : ascii := "d".
Definition FLAG_NO_PROPAGATE_INHERIT : ascii := "n".
Definition FLAG_INHERIT_ONLY : ascii := "i".
Definition FLAG_SUCCESSFUL_ACCESS : ascii := "S".
Definition FLAG_FAILED_ACCESS : ascii := "F".
Definition FLAG_GROUP : ascii := "g".
Definition FLAG_OWNER_AT : ascii := "O".
Definition FLAG_GROUP_AT : ascii := "G".
Definition FLAG_EVERYONE_AT : ascii := "E".

Definition NFS4_ACE_READ_DATA : Z := 0x00000001.
Definition NFS4_ACE_LIST_DIRECTORY : Z := 0x00000001.
Definition NFS4_ACE_WRITE_DATA : Z := 0x00000002.
Definition NFS4_ACE_ADD_FILE : Z := 0x00000002.
Definition NFS4_ACE_APPEND_DATA : Z := 0x00000004.
Definition NFS4_ACE_ADD_SUBDIRECTORY : Z := 0x00000004.
Definition NFS4_ACE_READ_NAMED_ATTRS : Z := 0x00000008.
Definition NFS4_ACE_WRITE_NAMED_ATTRS : Z := 0x00000010.
Definition NFS4_ACE_EXECUTE : Z := 0x00000020.
Definition NFS4_ACE_DELETE_CHILD : Z := 0x00000040.
Definition NFS4_ACE_READ_ATTRIBUTES : Z := 0x00000080.
Definition NFS4_ACE_WRITE_ATTRIBUTES : Z := 0x00000100.
Definition NFS4_ACE_DELETE : Z := 0x00010000.
Definition NFS4_ACE_READ_ACL : Z := 0x00020000.
Definition NFS4_ACE_WRITE_ACL : Z := 0x00040000.
Definition NFS4_ACE_WRITE_OWNER : Z := 0x00080000.
Definition NFS4_ACE_SYNCHRONIZE : Z := 0x00100000.

Definition PERM_READ_DATA : ascii := "r".
Definition PERM_WRITE_DATA : ascii := "w".
Definition PERM_APPEND_DATA : ascii := "a".
Definition PERM_LIST_DIR : ascii := PERM_READ_DATA.
Definition PERM_CREATE_FILE : ascii := PERM_WRITE_DATA.
Definition PERM_CREATE_SUBDIR : ascii := PERM_APPEND_DATA.
Definition PERM_DELETE_CHILD : ascii := "D".
Definition PERM_DELETE : ascii := "d".
Definition PERM_EXECUTE : ascii := "x".
Definition PERM_READ_ATTR : ascii := "t".
Definition PERM_WRITE_ATTR : ascii := "T".
Definition PERM_READ_NAMED_ATTR : ascii := "n".
Definition PERM_WRITE_NAMED_ATTR : ascii := "N".
Definition PERM_READ_ACL : ascii := "c".
Definition PERM_WRITE_ACL : ascii := "C".
Definition PERM_WRITE_OWNER : ascii := "o".
Definition PERM_SYNCHRONIZE : ascii := "y".

(** ** The ACE entity *)

(** [AceGetWhoType]: a [switch] on the string, byte-wise equality. *)
Definition AceGetWhoType (who : string) : Z :=
  if String.eqb who NFS4_ACL_WHO_OWNER_STRING then NFS4_ACL_WHO_OWNER
  else if String.eqb who NFS4_ACL_WHO_GROUP_STRING then NFS4_ACL_WHO_GROUP
  else if String.eqb who NFS4_ACL_WHO_EVERYONE_STRING then NFS4_ACL_WHO_EVERYONE
  else NFS4_ACL_WHO_NAMED.

(** [AceWhoStringAtomLength]: Go's [/] on [int] truncates towards zero. *)
Definition AceWhoStringAtomLength (whoLength : Z) : Z :=
  let whoIncrement := int (int (Z.quot whoLength ATOM_SIZE) * ATOM_SIZE) in
  if whoIncrement <? whoLength
  then int (whoIncrement + ATOM_SIZE)
  else whoIncrement.

Record NFS4ACE : Type := mkACE {
  AceType : Z;
  WhoType : Z;
  Who : string;
  Flags : Z;
  AccessMask : Z
}.

Definition NewNFS4ACE (aceType flag mask : Z) (who : string) : NFS4ACE :=
  {| AceType := aceType;
     Who := who;
     WhoType := AceGetWhoType who;
     Flags := flag;
     AccessMask := mask |}.

(** The operators [|] and [&^] of Go on [uint32]. *)
Definition or32 (x y : Z) : Z := Z.lor x y.
Definition andnot32 (x y : Z) : Z := Z.land x (Z.lxor y (2 ^ 32 - 1)).

Definition with_AccessMask (ace : NFS4ACE) (m : Z) : NFS4ACE :=
  {| AceType := AceType ace;
     Who := Who ace;
     WhoType := WhoType ace;
     Flags := Flags ace;
     AccessMask := m |}.

Definition applyAccessMask (ace : NFS4ACE) (accessMask : Z) : NFS4ACE :=
  with_AccessMask ace (or32 (AccessMask ace) accessMask).

Definition removeAccessMask (ace : NFS4ACE) (accessMask : Z) : NFS4ACE :=
  with_AccessMask ace (andnot32 (AccessMask ace) accessMask).

Definition setAccessMask (ace : NFS4ACE) (accessMask : Z) : NFS4ACE :=
  with_AccessMask ace accessMask.

(** [bytes.Buffer]: the renderer only appends. *)
Definition WriteRune (buffer : string) (r : ascii) : string :=
  String.append buffer (String r EmptyString).
Definition WriteString (buffer s : string) : string := String.append buffer s.

(** The test [x&bit != 0]. *)
Definition has_bit (x bit : Z) : bool := negb (Z.land x bit =? 0).

(** [PrintACE]: the line handed to [fmt.Println] (which adds the newline
    and writes it to the standard output); the method returns [nil]. *)
Definition PrintACE (ace : NFS4ACE) (verbose isDir : bool) : string :=
  let buffer := EmptyString in
  let buffer :=
    if verbose then
      if AceType ace =? NFS4_ACE_ACCESS_ALLOWED_ACE_TYPE then WriteString buffer "ALLOW"
      else if AceType ace =? NFS4_ACE_ACCESS_DENIED_ACE_TYPE then WriteString buffer "DENY"
      else if AceType ace =? NFS4_ACE_SYSTEM_AUDIT_ACE_TYPE then WriteString buffer "AUDIT"
      else if AceType ace =? NFS4_ACE_SYSTEM_ALARM_ACE_TYPE then WriteString buffer "ALARM"
      else buffer
    else
      if AceType ace =? NFS4_ACE_ACCESS_ALLOWED_ACE_TYPE then WriteRune buffer TYPE_ALLOW
      else if AceType ace =? NFS4_ACE_ACCESS_DENIED_ACE_TYPE then WriteRune buffer TYPE_DENY
      else if AceType ace =? NFS4_ACE_SYSTEM_AUDIT_ACE_TYPE then WriteRune buffer TYPE_AUDIT
      else if AceType ace =? NFS4_ACE_SYSTEM_ALARM_ACE_TYPE then WriteRune buffer TYPE_ALARM
      else buffer in
  let buffer := WriteRune buffer ":" in
  let flag bit r buffer := if has_bit (Flags ace) bit then WriteRune buffer r else buffer in
  let buffer := flag NFS4_ACE_FILE_INHERIT_ACE FLAG_FILE_INHERIT buffer in
  let buffer := flag NFS4_ACE_DIRECTORY_INHERIT_ACE FLAG_DIR_INHERIT buffer in
  let buffer := flag NFS4_ACE_NO_PROPAGATE_INHERIT_ACE FLAG_NO_PROPAGATE_INHERIT buffer in
  let buffer := flag NFS4_ACE_INHERIT_ONLY_ACE FLAG_INHERIT_ONLY buffer in
  let buffer := flag NFS4_ACE_SUCCESSFUL_ACCESS_ACE_FLAG FLAG_SUCCESSFUL_ACCESS buffer in
  let buffer := flag NFS4_ACE_FAILED_ACCESS_ACE_FLAG FLAG_FAILED_ACCESS buffer in
  let buffer := flag NFS4_ACE_IDENTIFIER_GROUP FLAG_GROUP buffer in
  let buffer := flag NFS4_ACE_OWNER FLAG_OWNER_AT buffer in
  let buffer := flag NFS4_ACE_GROUP FLAG_GROUP_AT buffer in
  let buffer := flag NFS4_ACE_EVERYONE FLAG_EVERYONE_AT buffer in
  let buffer := WriteRune buffer ":" in
  let buffer := WriteString buffer (Who ace) in
  let buffer := WriteRune buffer ":" in
  let perm bit r buffer := if has_bit (AccessMask ace) bit then WriteRune buffer r else buffer in
  let buffer :=
    if isDir then
      let buffer := perm NFS4_ACE_LIST_DIRECTORY PERM_LIST_DIR buffer in
      let buffer := perm NFS4_ACE_ADD_FILE PERM_CREATE_FILE buffer in
      let buffer := perm NFS4_ACE_ADD_SUBDIRECTORY PERM_CREATE_SUBDIR buffer in
      perm NFS4_ACE_DELETE_CHILD PERM_DELETE_CHILD buffer
    else
      let buffer := perm NFS4_ACE_READ_DATA PERM_READ_DATA buffer in
      let buffer := perm NFS4_ACE_WRITE_DATA PERM_WRITE_DATA buffer in
      perm NFS4_ACE_APPEND_DATA PERM_APPEND_DATA buffer in
  let buffer := perm NFS4_ACE_DELETE PERM_DELETE buffer in
  let buffer := perm NFS4_ACE_EXECUTE PERM_EXECUTE buffer in
  let buffer := perm NFS4_ACE_READ_ATTRIBUTES PERM_READ_ATTR buffer in
  let buffer := perm NFS4_ACE_WRITE_ATTRIBUTES PERM_WRITE_ATTR buffer in
  let buffer := perm NFS4_ACE_READ_NAMED_ATTRS PERM_READ_NAMED_ATTR buffer in
  let buffer := perm NFS4_ACE_WRITE_NAMED_ATTRS PERM_WRITE_NAMED_ATTR buffer in
  let buffer := perm NFS4_ACE_READ_ACL PERM_READ_ACL buffer in
  let buffer := perm NFS4_ACE_WRITE_ACL PERM_WRITE_ACL buffer in
  let buffer := perm NFS4_ACE_WRITE_OWNER PERM_WRITE_OWNER buffer in
  let buffer := perm NFS4_ACE_SYNCHRONIZE PERM_SYNCHRONIZE buffer in
  buffer.

(** ** The ACL aggregate and its codec *)

Record NFS4ACL : Type := mkACL {
  isDirectory : bool;
  aceList : list NFS4ACE
}.

(** The body of the [for curAce := 0; curAce < numAces; curAce++] loop of
    [XAttrLoad]; the first argument counts the iterations still to run.
    [spare] is what the backing array of [value] holds beyond [len(value)].
    On an error the function returns its named results as they stand: the
    entries appended so far, and the error. *)
Fixpoint XAttrLoad_loop (todo : nat) (value spare : list byte) (curAtom : Z)
    (aceList : list NFS4ACE) : go (list NFS4ACE * option error) :=
  match todo with
  | O => Done (aceList, None)
  | S todo =>
      let maxAtom := len value in
      if curAtom >=? maxAtom then
        Done (aceList, Some (errors_New "buffer overflow"))
      else if int (curAtom + int (ATOM_SIZE * 4)) >=? maxAtom then
        Done (aceList, Some (errors_New "buffer overflow"))
      else
        b <- slice_from value curAtom;;
        aceType <- Uint32 b;;
        let curAtom := int (curAtom + ATOM_SIZE) in
        b <- slice_from value curAtom;;
        aceFlag <- Uint32 b;;
        let curAtom := int (curAtom + ATOM_SIZE) in
        b <- slice_from value curAtom;;
        aceMask <- Uint32 b;;
        let curAtom := int (curAtom + ATOM_SIZE) in
        b <- slice_from value curAtom;;
        whoLen <- Uint32 b;;
        let curAtom := int (curAtom + ATOM_SIZE) in
        b <- slice_cap value spare curAtom (int (whoLen + curAtom));;
        let aceWho := string_of_list_byte b in
        let curAtom := int (curAtom + AceWhoStringAtomLength whoLen) in
        let newACE := NewNFS4ACE aceType aceFlag aceMask aceWho in
        XAttrLoad_loop todo value spare curAtom (aceList ++ [newACE])
  end.

(** [XAttrLoad] on a slice [value] with spare capacity [spare]. *)
Definition XAttrLoadCap (value spare : list byte) (isDir : bool)
    : go (NFS4ACL * option error) :=
  let curAtom := 0 in
  let maxAtom := len value in
  if maxAtom <? ATOM_SIZE then
    Done ({| isDirectory := isDir; aceList := [] |},
          Some (errors_New "invalid input buffer 'value'"))
  else
    b <- slice_from value curAtom;;
    numAces <- Uint32 b;;
    let curAtom := int (curAtom + ATOM_SIZE) in
    r <- XAttrLoad_loop (Z.to_nat numAces) value spare curAtom [];;
    Done ({| isDirectory := isDir; aceList := fst r |}, snd r).

(** [XAttrLoad] on a slice whose capacity is its length (a freshly made
    buffer, as [PackXAttr] and [Nfs4GetAcl] produce when the attribute did
    not shrink between the two reads). *)
Definition XAttrLoad (value : list byte) (isDir : bool) : go (NFS4ACL * option error) :=
  XAttrLoadCap value [] isDir.

Definition XAttrSize (acl : NFS4ACL) : Z :=
  fold_left
    (fun xAttrSize ace =>
       let xAttrSize := int (xAttrSize + int (ATOM_SIZE * 4)) in
       int (xAttrSize + AceWhoStringAtomLength (strlen (Who ace))))
    (aceList acl) ATOM_SIZE.

(** The [for _, ace := range acl.aceList] loop of [PackXAttr]. *)
Fixpoint PackXAttr_loop (aces : list NFS4ACE) (xattr : list byte) (currAtom : Z)
    : go (list byte) :=
  match aces with
  | [] => Done xattr
  | ace :: aces =>
      xattr <- PutUint32_at xattr currAtom (AceType ace);;
      let currAtom := int (currAtom + ATOM_SIZE) in
      xattr <- PutUint32_at xattr currAtom (Flags ace);;
      let currAtom := int (currAtom + ATOM_SIZE) in
      xattr <- PutUint32_at xattr currAtom (AccessMask ace);;
      let currAtom := int (currAtom + ATOM_SIZE) in
      let whoLen := strlen (Who ace) in
      xattr <- PutUint32_at xattr currAtom (uint32 whoLen);;
      let currAtom := int (currAtom + ATOM_SIZE) in
      xattr <- copy_at xattr currAtom (list_byte_of_string (Who ace));;
      let currAtom := int (currAtom + AceWhoStringAtomLength whoLen) in
      PackXAttr_loop aces xattr currAtom
  end.

Definition PackXAttr (acl : NFS4ACL) : go (list byte * option error) :=
  let aclSize := XAttrSize acl in
  xattr <- make_bytes aclSize;;
  let currAtom := 0 in
  xattr <- PutUint32_at xattr currAtom (uint32 (len (aceList acl)));;
  let currAtom := int (currAtom + ATOM_SIZE) in
  xattr <- PackXAttr_loop (aceList acl) xattr currAtom;;
  Done (xattr, None).

(** ** The mutation API *)

Definition with_aceList (acl : NFS4ACL) (l : list NFS4ACE) : NFS4ACL :=
  {| isDirectory := isDirectory acl; aceList := l |}.

(** The guard that opens every [...ByWhoType] method; [whoType] is a [uint]. *)
Definition whoType_guard (whoType : Z) : option error :=
  if whoType =? NFS4_ACL_WHO_NAMED then Some (errors_New "named who not allowed")
  else if (whoType <? NFS4_ACL_WHO_NAMED) || (whoType >? NFS4_ACL_WHO_EVERYONE)
       then Some (errors_New "unsupported who type")
       else None.

Definition ApplyAccessMask (acl : NFS4ACL) (accessMask : Z) : NFS4ACL :=
  with_aceList acl ((fun ace => applyAccessMask ace accessMask) <$> aceList acl).

Definition ApplyAccessMaskByWhoType (acl : NFS4ACL) (accessMask whoType : Z)
    : NFS4ACL * option error :=
  match whoType_guard whoType with
  | Some err => (acl, Some err)
  | None =>
      (with_aceList acl
         ((fun ace => if WhoType ace =? whoType
                      then applyAccessMask ace accessMask else ace) <$> aceList acl),
       None)
  end.

Definition ApplyAccessMaskByWho (acl : NFS4ACL) (accessMask : Z) (who : string)
    : NFS4ACL * option error :=
  (with_aceList acl
     ((fun ace => if String.eqb (Who ace) who
                  then applyAccessMask ace accessMask else ace) <$> aceList acl),
   None).

Definition RemoveAccessMask (acl : NFS4ACL) (accessMask : Z) : NFS4ACL :=
  with_aceList acl ((fun ace => removeAccessMask ace accessMask) <$> aceList acl).

Definition RemoveAccessMaskByWhoType (acl : NFS4ACL) (accessMask whoType : Z)
    : NFS4ACL * option error :=
  match whoType_guard whoType with
  | Some err => (acl, Some err)
  | None =>
      (with_aceList acl
         ((fun ace => if WhoType ace =? whoType
                      then removeAccessMask ace accessMask else ace) <$> aceList acl),
       None)
  end.

Definition RemoveAccessMaskByWho (acl : NFS4ACL) (accessMask : Z) (who : string)
    : NFS4ACL * option error :=
  (with_aceList acl
     ((fun ace => if String.eqb (Who ace) who
                  then removeAccessMask ace accessMask else ace) <$> aceList acl),
   None).

Definition SetAccessMask (acl : NFS4ACL) (accessMask : Z) : NFS4ACL :=
  with_aceList acl ((fun ace => setAccessMask ace accessMask) <$> aceList acl).

Definition SetAccessMaskByWhoType (acl : NFS4ACL) (accessMask whoType : Z)
    : NFS4ACL * option error :=
  match whoType_guard whoType with
  | Some err => (acl, Some err)
  | None =>
      (with_aceList acl
         ((fun ace => if WhoType ace =? whoType
                      then setAccessMask ace accessMask else ace) <$> aceList acl),
       None)
  end.

Definition SetAccessMaskByWho (acl : NFS4ACL) (accessMask : Z) (who : string)
    : NFS4ACL * option error :=
  (with_aceList acl
     ((fun ace => if String.eqb (Who ace) who
                  then setAccessMask ace accessMask else ace) <$> aceList acl),
   None).

(** ** The flag methods of an ACE and the write helpers *)

Definition with_Flags (ace : NFS4ACE) (f : Z) : NFS4ACE :=
  {| AceType := AceType ace;
     Who := Who ace;
     WhoType := WhoType ace;
     Flags := f;
     AccessMask := AccessMask ace |}.

Definition applyFlags (ace : NFS4ACE) (flags : Z) : NFS4ACE :=
  with_Flags ace (or32 (Flags ace) flags).

Definition removeFlags (ace : NFS4ACE) (flags : Z) : NFS4ACE :=
  with_Flags ace (andnot32 (Flags ace) flags).

Definition setFlags (ace : NFS4ACE) (flags : Z) : NFS4ACE :=
  with_Flags ace flags.

(** [SetWrite] and [ClearWrite] of the earlier revision of the file, whose
    [Nfs4_acl] and [Nfs4_ace] have the fields of [NFS4ACL] and [NFS4ACE]. *)
Definition SetWrite (acl : NFS4ACL) : NFS4ACL :=
  with_aceList acl
    ((fun ace => with_AccessMask ace (or32 (AccessMask ace) NFS4_ACE_WRITE_DATA))
       <$> aceList acl).

Definition ClearWrite (acl : NFS4ACL) : NFS4ACL :=
  with_aceList acl
    ((fun ace => with_AccessMask ace (andnot32 (AccessMask ace) NFS4_ACE_WRITE_DATA))
       <$> aceList acl).

(** ** Notions of the specification *)

(** The error classes of the specification, as sets of the messages the
    package passes to [errors.New]. *)
Definition MalformedBuffer (e : error) : Prop :=
  e = errors_New "invalid input buffer 'value'" \/ e = errors_New "buffer overflow".

Definition InvalidTargetingArgument (e : error) : Prop :=
  e = errors_New "named who not allowed" \/ e = errors_New "unsupported who type".

(** The three mask operations and the three targeting modes, and the
    dispatch of a pair of them to the nine methods of [NFS4ACL]. *)
Inductive mask_op : Type := OpApply | OpRemove | OpSet.

Inductive target : Type :=
| TargetAll
| TargetWhoType (whoType : Z)
| TargetWho (who : string).

Definition mutate (op : mask_op) (t : target) (acl : NFS4ACL) (accessMask : Z)
    : NFS4ACL * option error :=
  match op, t with
  | OpApply, TargetAll => (ApplyAccessMask acl accessMask, None)
  | OpApply, TargetWhoType w => ApplyAccessMaskByWhoType acl accessMask w
  | OpApply, TargetWho who => ApplyAccessMaskByWho acl accessMask who
  | OpRemove, TargetAll => (RemoveAccessMask acl accessMask, None)
  | OpRemove, TargetWhoType w => RemoveAccessMaskByWhoType acl accessMask w
  | OpRemove, TargetWho who => RemoveAccessMaskByWho acl accessMask who
  | OpSet, TargetAll => (SetAccessMask acl accessMask, None)
  | OpSet, TargetWhoType w => SetAccessMaskByWhoType acl accessMask w
  | OpSet, TargetWho who => SetAccessMaskByWho acl accessMask who
  end.

(** The function [f] of the specification: OR, AND-NOT, overwrite. *)
Definition mask_fun (op : mask_op) (old operand : Z) : Z :=
  match op with
  | OpApply => Z.lor old operand
  | OpRemove => Z.ldiff old operand
  | OpSet => operand
  end.

(** The targeting predicate of the specification. *)
Definition selects (t : target) (ace : NFS4ACE) : Prop :=
  match t with
  | TargetAll => True
  | TargetWhoType w => WhoType ace = w
  | TargetWho who => Who ace = who
  end.

(** The who types a by-who-type call accepts. *)
Definition supported_target (t : target) : Prop :=
  match t with
  | TargetWhoType w =>
      w = NFS4_ACL_WHO_OWNER \/ w = NFS4_ACL_WHO_GROUP \/ w = NFS4_ACL_WHO_EVERYONE
  | _ => True
  end.

(** An ACE as the package builds it: three [uint32] fields and the who
    type of its who string. *)
Definition valid_ace (ace : NFS4ACE) : Prop :=
  is_uint32 (AceType ace) /\ is_uint32 (Flags ace) /\ is_uint32 (AccessMask ace) /\
  WhoType ace = AceGetWhoType (Who ace).

(** The wire format of section 4.2: an entry is four atoms, the who bytes
    and zero bytes up to the next multiple of the atom size. *)
Definition padded_length (n : Z) : Z := 4 * ((n + 3) / 4).

Definition wire_entry (ace : NFS4ACE) : list byte :=
  be32 (AceType ace) ++ be32 (Flags ace) ++ be32 (AccessMask ace) ++
  be32 (uint32 (strlen (Who ace))) ++
  list_byte_of_string (Who ace) ++
  replicate (Z.to_nat (padded_length (strlen (Who ace)) - strlen (Who ace))) x00.

Fixpoint wire_entries (aces : list NFS4ACE) : list byte :=
  match aces with
  | [] => []
  | ace :: aces => wire_entry ace ++ wire_entries aces
  end.

(** The number of bytes of the entries on the wire, in plain arithmetic. *)
Fixpoint wire_size (aces : list NFS4ACE) : Z :=
  match aces with
  | [] => 0
  | ace :: aces => 16 + padded_length (strlen (Who ace)) + wire_size aces
  end.

Definition wire_acl (aces : list NFS4ACE) : list byte :=
  be32 (uint32 (len aces)) ++ wire_entries aces.

(** A who string that the 32-bit length atom can describe. *)
Definition who_fits (ace : NFS4ACE) : Prop := strlen (Who ace) < 2 ^ 32.

(** A who string of 2^32 bytes, the shortest one whose length the length
    atom cannot hold. *)
Definition long_who : string :=
  string_of_list_byte (replicate (Z.to_nat (2 ^ 32)) x41).

(** The entry that ends the buffer carries at least one who byte. *)
Definition last_who_nonempty (aces : list NFS4ACE) : Prop :=
  match last aces with
  | Some ace => Who ace <> EmptyString
  | None => True
  end.

(** A buffer laid out canonically from the cursor [cur] on: [todo] entries
    follow, the bytes between the end of each who string and the next
    multiple of the atom size are present and zero, and the last entry ends
    where the buffer ends. *)
Fixpoint canonical_from (todo : nat) (value : list byte) (cur : Z) : bool :=
  match todo with
  | O => cur =? len value
  | S todo =>
      match Uint32 (drop (Z.to_nat (cur + 12)) value) with
      | Done whoLen =>
          let whoEnd := cur + 16 + whoLen in
          let padEnd := cur + 16 + padded_length whoLen in
          forallb (Byte.eqb x00)
                  (take (Z.to_nat (padEnd - whoEnd)) (drop (Z.to_nat whoEnd) value))
          && canonical_from todo value padEnd
      | Panic => false
      end
  end.

Definition canonical (value : list byte) : bool :=
  match Uint32 value with
  | Done numAces => canonical_from (Z.to_nat numAces) value 4
  | Panic => false
  end.

(** The atom a buffer holds at the byte offset [k] (0 where fewer than
    four bytes remain). *)
Definition atom_at (value : list byte) (k : Z) : Z :=
  match Uint32 (drop (Z.to_nat k) value) with
  | Done v => v
  | Panic => 0
  end.

(** The method of [NFS4ACE] behind a mask operation, the test the loops of
    the nine methods apply to an entry, and the targets the guard lets
    through. *)
Definition mask_method (op : mask_op) (ace : NFS4ACE) (accessMask : Z) : NFS4ACE :=
  match op with
  | OpApply => applyAccessMask ace accessMask
  | OpRemove => removeAccessMask ace accessMask
  | OpSet => setAccessMask ace accessMask
  end.

Definition selected (t : target) (ace : NFS4ACE) : bool :=
  match t with
  | TargetAll => true
  | TargetWhoType w => WhoType ace =? w
  | TargetWho who => String.eqb (Who ace) who
  end.

Definition target_ok (t : target) : bool :=
  match t with
  | TargetWhoType w => match whoType_guard w with None => true | Some _ => false end
  | _ => true
  end.

(** ** Machine integers and bytes *)

Lemma int_small (z : Z) : MinInt <= z <= MaxInt -> int z = z.
Proof.
  unfold int, MinInt, MaxInt. intros H.
  rewrite Z.mod_small by lia. lia.
Qed.

Lemma byte_val_range (b : byte) : 0 <= byte_val b < 256.
Proof.
  unfold byte_val. pose proof (Byte.to_N_bounded b). lia.
Qed.

Lemma to_byte_val (b : byte) : to_byte (byte_val b) = b.
Proof.
  unfold to_byte. rewrite Z.mod_small by apply byte_val_range.
  unfold byte_val. rewrite N2Z.id, Byte.of_to_N. reflexivity.
Qed.

Lemma byte_val_to_byte (z : Z) : byte_val (to_byte z) = z mod 256.
Proof.
  unfold to_byte, byte_val.
  assert (Hr : 0 <= z mod 256 < 256) by (apply Z.mod_pos_bound; lia).
  destruct (Byte.of_N (Z.to_N (z mod 256))) as [b|] eqn:E.
  - apply Byte.to_of_N in E. rewrite E. lia.
  - apply Byte.of_N_None_iff in E. lia.
Qed.

(** The value [Uint32] assembles with [|] and [<<] is the base-256 number. *)
Lemma lor_shiftl_add (hi lo k : Z) :
  0 <= k -> 0 <= lo < 2 ^ k -> Z.lor lo (Z.shiftl hi k) = lo + hi * 2 ^ k.
Proof.
  intros Hk Hlo. rewrite Z.shiftl_mul_pow2 by lia.
  symmetry. apply Z.add_nocarry_lor.
  apply Z.bits_inj'. intros i Hi. rewrite Z.land_spec, Z.bits_0.
  destruct (Z.lt_ge_cases i k) as [Hlt|Hge].
  - rewrite Z.mul_pow2_bits_low by lia. apply andb_false_r.
  - destruct (Z.eq_dec lo 0) as [->|Hne]; [now rewrite Z.bits_0|].
    rewrite (Z.bits_above_log2 lo i); [reflexivity|lia|].
    apply Z.log2_lt_pow2; [lia|].
    eapply Z.lt_le_trans; [apply Hlo|]. apply Z.pow_le_mono_r; lia.
Qed.

Lemma Uint32_value (b0 b1 b2 b3 : byte) (rest : list byte) :
  Uint32 (b0 :: b1 :: b2 :: b3 :: rest) =
  Done (byte_val b3 + byte_val b2 * 2 ^ 8 + byte_val b1 * 2 ^ 16 + byte_val b0 * 2 ^ 24).
Proof.
  pose proof (byte_val_range b0). pose proof (byte_val_range b1).
  pose proof (byte_val_range b2). pose proof (byte_val_range b3).
  unfold Uint32. f_equal.
  rewrite (lor_shiftl_add (byte_val b2) (byte_val b3) 8) by lia.
  rewrite (lor_shiftl_add (byte_val b1) _ 16) by lia.
  rewrite (lor_shiftl_add (byte_val b0) _ 24) by lia.
  reflexivity.
Qed.

Lemma Uint32_is_uint32 (b : list byte) (v : Z) : Uint32 b = Done v -> is_uint32 v.
Proof.
  destruct b as [|b0 [|b1 [|b2 [|b3 rest]]]]; try discriminate.
  rewrite Uint32_value. intros [= <-].
  pose proof (byte_val_range b0). pose proof (byte_val_range b1).
  pose proof (byte_val_range b2). pose proof (byte_val_range b3).
  unfold is_uint32. lia.
Qed.

Lemma Uint32_be32 (v : Z) (rest : list byte) :
  Uint32 (be32 v ++ rest) = Done (uint32 v).
Proof.
  unfold be32. cbn [app]. rewrite Uint32_value. f_equal.
  rewrite !byte_val_to_byte, !Z.shiftr_div_pow2 by lia.
  unfold uint32.
  change (2 ^ 8) with 256. change (2 ^ 16) with 65536.
  change (2 ^ 24) with 16777216. change (2 ^ 32) with 4294967296.
  Z.div_mod_to_equations. lia.
Qed.

Lemma to_byte_eq (z : Z) (b : byte) : z mod 256 = byte_val b -> to_byte z = b.
Proof.
  intros H. rewrite <- (to_byte_val b). unfold to_byte.
  rewrite H, (Z.mod_small (byte_val b)) by apply byte_val_range. reflexivity.
Qed.

Lemma be32_Uint32 (b0 b1 b2 b3 : byte) (rest : list byte) (v : Z) :
  Uint32 (b0 :: b1 :: b2 :: b3 :: rest) = Done v -> be32 v = [b0; b1; b2; b3].
Proof.
  rewrite Uint32_value. intros [= <-].
  pose proof (byte_val_range b0). pose proof (byte_val_range b1).
  pose proof (byte_val_range b2). pose proof (byte_val_range b3).
  unfold be32. rewrite !Z.shiftr_div_pow2 by lia.
  change (2 ^ 8) with 256. change (2 ^ 16) with 65536. change (2 ^ 24) with 16777216.
  repeat f_equal; apply to_byte_eq; Z.div_mod_to_equations; lia.
Qed.

(** ** The padding rule *)

Lemma AceWhoStringAtomLength_padded (n : Z) :
  0 <= n -> n + 3 <= MaxInt -> AceWhoStringAtomLength n = padded_length n.
Proof.
  unfold AceWhoStringAtomLength, padded_length, ATOM_SIZE, MaxInt. intros H0 Hmax.
  rewrite Z.quot_div_nonneg by lia.
  assert (Hq : 0 <= n / 4 <= n) by (split; [apply Z.div_pos; lia | apply Z.div_le_upper_bound; lia]).
  assert (Hm : 0 <= n / 4 * 4 <= n) by (pose proof (Z.mul_div_le n 4); lia).
  rewrite (int_small (n / 4)) by (unfold MinInt, MaxInt; lia).
  rewrite (int_small (n / 4 * 4)) by (unfold MinInt, MaxInt; lia).
  destruct (Z.ltb_spec (n / 4 * 4) n).
  - rewrite int_small by (unfold MinInt, MaxInt; lia). Z.div_mod_to_equations. lia.
  - Z.div_mod_to_equations. lia.
Qed.

Lemma AceWhoStringAtomLength_fits (n : Z) :
  0 <= n -> padded_length n <= MaxInt -> AceWhoStringAtomLength n = padded_length n.
Proof.
  unfold AceWhoStringAtomLength, padded_length, ATOM_SIZE, MaxInt. intros H0 Hmax.
  rewrite Z.quot_div_nonneg by lia.
  assert (Hm : 0 <= n / 4 /\ 0 <= n / 4 * 4 <= n) by (Z.div_mod_to_equations; lia).
  assert (Hn : n <= 2 ^ 63 - 1) by (Z.div_mod_to_equations; lia).
  rewrite (int_small (n / 4)) by (unfold MinInt, MaxInt; lia).
  rewrite (int_small (n / 4 * 4)) by (unfold MinInt, MaxInt; lia).
  destruct (Z.ltb_spec (n / 4 * 4) n).
  - rewrite int_small by (unfold MinInt, MaxInt; Z.div_mod_to_equations; lia).
    Z.div_mod_to_equations. lia.
  - Z.div_mod_to_equations. lia.
Qed.

(** C8. [AceWhoStringAtomLength] rounds a byte length up to the next
    multiple of four and keeps a multiple of four as it is: for every
    non-negative [int] [n] the result is [n] when four divides [n], and,
    whenever the next multiple of four is itself an [int] (every length but
    the last three values of the type), the result is that multiple: it is
    divisible by four and lies in [n, n+4).  In particular 0, 4, 5 and 7 give
    0, 4, 8 and 8. *)
Theorem AceWhoStringAtomLength_rounds_up (n : Z) :
  0 <= n <= MaxInt ->
  (n mod 4 = 0 -> AceWhoStringAtomLength n = n) /\
  (n + 3 <= MaxInt ->
     AceWhoStringAtomLength n mod 4 = 0 /\
     n <= AceWhoStringAtomLength n < n + 4) /\
  AceWhoStringAtomLength 0 = 0 /\ AceWhoStringAtomLength 4 = 4 /\
  AceWhoStringAtomLength 5 = 8 /\ AceWhoStringAtomLength 7 = 8.
Proof.
  intros Hn. split; [|split; [|repeat split; reflexivity]].
  - intros Hdiv. rewrite AceWhoStringAtomLength_padded.
    + unfold padded_length. Z.div_mod_to_equations. lia.
    + lia.
    + unfold MaxInt in *. Z.div_mod_to_equations. lia.
  - intros Hfit. rewrite AceWhoStringAtomLength_padded by lia.
    unfold padded_length. Z.div_mod_to_equations. lia.
Qed.

Lemma AceWhoStringAtomLength_rounds_up_witness :
  AceWhoStringAtomLength 8 = 8 /\
  AceWhoStringAtomLength 6 mod 4 = 0 /\ 6 <= AceWhoStringAtomLength 6 < 6 + 4.
Proof.
  assert (H8 : 0 <= 8 <= MaxInt) by (unfold MaxInt; lia).
  assert (H6 : 0 <= 6 <= MaxInt) by (unfold MaxInt; lia).
  split.
  - apply (proj1 (AceWhoStringAtomLength_rounds_up 8 H8)). reflexivity.
  - apply (proj1 (proj2 (AceWhoStringAtomLength_rounds_up 6 H6))). unfold MaxInt. lia.
Defined.

(** ** Mask operations on an ACE *)

Lemma andnot32_ldiff (x y : Z) : is_uint32 x -> andnot32 x y = Z.ldiff x y.
Proof.
  unfold is_uint32, andnot32. intros Hx.
  apply Z.bits_inj'. intros i Hi.
  rewrite Z.land_spec, Z.lxor_spec, Z.ldiff_spec.
  change (2 ^ 32 - 1) with (Z.ones 32).
  destruct (Z.lt_ge_cases i 32) as [Hlt|Hge].
  - rewrite Z.ones_spec_low by lia. now rewrite xorb_true_r.
  - destruct (Z.eq_dec x 0) as [->|Hne]; [now rewrite Z.bits_0|].
    rewrite (Z.bits_above_log2 x i); [reflexivity|lia|].
    apply Z.log2_lt_pow2; [lia|].
    eapply Z.lt_le_trans; [apply Hx|]. apply Z.pow_le_mono_r; lia.
Qed.

Lemma lt_pow2_log2 (x k : Z) : 0 <= x -> 0 < k -> x < 2 ^ k <-> Z.log2 x < k.
Proof.
  intros Hx Hk. destruct (Z.eq_dec x 0) as [->|Hne].
  - cbn. split; intros _; [lia | apply Z.pow_pos_nonneg; lia].
  - apply Z.log2_lt_pow2. lia.
Qed.

Lemma lor_is_uint32 (x y : Z) : is_uint32 x -> is_uint32 y -> is_uint32 (Z.lor x y).
Proof.
  unfold is_uint32. intros Hx Hy.
  assert (H0 : 0 <= Z.lor x y) by (apply Z.lor_nonneg; lia).
  split; [exact H0|].
  apply lt_pow2_log2; [exact H0|lia|].
  rewrite Z.log2_lor by lia.
  apply Z.max_lub_lt; apply lt_pow2_log2; lia.
Qed.

Lemma ldiff_is_uint32 (x y : Z) : is_uint32 x -> 0 <= y -> is_uint32 (Z.ldiff x y).
Proof.
  unfold is_uint32. intros Hx Hy.
  assert (H0 : 0 <= Z.ldiff x y) by (apply Z.ldiff_nonneg; lia).
  split; [exact H0|].
  apply lt_pow2_log2; [exact H0|lia|].
  destruct (Z.eq_dec (Z.ldiff x y) 0) as [->|Hne]; [cbn; lia|].
  destruct (Z.lt_ge_cases (Z.log2 (Z.ldiff x y)) 32) as [Hlt|Hge]; [exact Hlt|exfalso].
  pose proof (Z.bit_log2 (Z.ldiff x y) ltac:(lia)) as Hb.
  rewrite Z.ldiff_spec in Hb. apply andb_true_iff in Hb as [Hb _].
  destruct (Z.eq_dec x 0) as [->|Hx0]; [now rewrite Z.bits_0 in Hb|].
  rewrite Z.bits_above_log2 in Hb; [discriminate|lia|].
  eapply Z.lt_le_trans; [|exact Hge]. apply lt_pow2_log2; lia.
Qed.

(** C5. For every ACE and every 32-bit operand, apply replaces the access
    mask by mask OR operand, remove by mask AND-NOT operand, and set by the
    operand itself (bit by bit: a bit of the result of apply is set when it
    is set in the mask or in the operand, of remove when it is set in the
    mask and not in the operand); no other field changes; from the mask
    0b00110101 (0x35) and the operand 0b00000011 (0x03) they give
    0b00110111 (0x37), 0b00110100 (0x34) and 0b00000011. *)
Theorem mask_operation_semantics (ace : NFS4ACE) (operand : Z) :
  is_uint32 (AccessMask ace) -> is_uint32 operand ->
  (applyAccessMask ace operand =
     with_AccessMask ace (mask_fun OpApply (AccessMask ace) operand) /\
   removeAccessMask ace operand =
     with_AccessMask ace (mask_fun OpRemove (AccessMask ace) operand) /\
   setAccessMask ace operand =
     with_AccessMask ace (mask_fun OpSet (AccessMask ace) operand)) /\
  (forall i, 0 <= i ->
     Z.testbit (AccessMask (applyAccessMask ace operand)) i =
       Z.testbit (AccessMask ace) i || Z.testbit operand i /\
     Z.testbit (AccessMask (removeAccessMask ace operand)) i =
       Z.testbit (AccessMask ace) i && negb (Z.testbit operand i) /\
     Z.testbit (AccessMask (setAccessMask ace operand)) i = Z.testbit operand i) /\
  (is_uint32 (AccessMask (applyAccessMask ace operand)) /\
   is_uint32 (AccessMask (removeAccessMask ace operand)) /\
   is_uint32 (AccessMask (setAccessMask ace operand))) /\
  (AccessMask ace = 0x35 -> operand = 0x03 ->
     AccessMask (applyAccessMask ace operand) = 0x37 /\
     AccessMask (removeAccessMask ace operand) = 0x34 /\
     AccessMask (setAccessMask ace operand) = 0x03).
Proof.
  intros Hm Ho.
  unfold applyAccessMask, removeAccessMask, setAccessMask, or32. cbn [mask_fun].
  rewrite andnot32_ldiff by exact Hm. cbn [AccessMask with_AccessMask].
  split; [repeat split|]. split; [|split].
  - intros i Hi. rewrite Z.lor_spec, Z.ldiff_spec. repeat split.
  - repeat split; try apply lor_is_uint32; try apply ldiff_is_uint32;
      unfold is_uint32 in *; try assumption; lia.
  - intros -> ->. repeat split.
Qed.

Lemma mask_operation_semantics_witness :
  let ace := NewNFS4ACE 0 0 0x35 "OWNER@" in
  AccessMask (applyAccessMask ace 0x03) = 0x37 /\
  AccessMask (removeAccessMask ace 0x03) = 0x34 /\
  AccessMask (setAccessMask ace 0x03) = 0x03.
Proof.
  intros ace.
  assert (Hm : is_uint32 (AccessMask ace)) by (unfold is_uint32; cbn; lia).
  assert (Ho : is_uint32 0x03) by (unfold is_uint32; lia).
  apply (proj2 (proj2 (proj2 (mask_operation_semantics ace 0x03 Hm Ho))));
    reflexivity.
Defined.

(** ** Who-type derivation *)

Lemma AceGetWhoType_cases (who : string) :
  (who = "OWNER@"%string /\ AceGetWhoType who = NFS4_ACL_WHO_OWNER) \/
  (who = "GROUP@"%string /\ AceGetWhoType who = NFS4_ACL_WHO_GROUP) \/
  (who = "EVERYONE@"%string /\ AceGetWhoType who = NFS4_ACL_WHO_EVERYONE) \/
  (who <> "OWNER@"%string /\ who <> "GROUP@"%string /\ who <> "EVERYONE@"%string /\
   AceGetWhoType who = NFS4_ACL_WHO_NAMED).
Proof.
  unfold AceGetWhoType, NFS4_ACL_WHO_OWNER_STRING, NFS4_ACL_WHO_GROUP_STRING,
    NFS4_ACL_WHO_EVERYONE_STRING.
  destruct (String.eqb_spec who "OWNER@"); [tauto|].
  destruct (String.eqb_spec who "GROUP@"); [tauto|].
  destruct (String.eqb_spec who "EVERYONE@"); tauto.
Qed.

Arguments int : simpl never.
Arguments slice_from : simpl never.
Arguments slice_cap : simpl never.
Arguments Uint32 : simpl never.
Arguments AceWhoStringAtomLength : simpl never.

(** Inversion of a successful sequence of Go statements. *)
Lemma go_bind_Done_inv {A B} (m : go A) (k : A -> go B) (r : B) :
  go_bind m k = Done r -> exists a, m = Done a /\ k a = Done r.
Proof.
  destruct m as [a|]; [intros H; exists a; split; [reflexivity|exact H]|discriminate].
Qed.

Ltac go_inv H :=
  repeat (cbv beta zeta in H;
          match type of H with
          | go_bind ?m ?k = Done ?r =>
              let a := fresh "a" in
              let E := fresh "E" in
              apply go_bind_Done_inv in H as (a & E & H)
          end);
  cbv beta zeta in H.

Lemma NewNFS4ACE_valid (t f m : Z) (who : string) :
  is_uint32 t -> is_uint32 f -> is_uint32 m -> valid_ace (NewNFS4ACE t f m who).
Proof. intros. repeat split; cbn; lia || apply H || apply H0 || apply H1. Qed.

(** Whatever [XAttrLoad] returns, with or without an error, holds only
    ACEs that [NewNFS4ACE] built from four decoded fields. *)
Lemma XAttrLoad_loop_valid (todo : nat) :
  forall value spare curAtom acc r,
    Forall valid_ace acc ->
    XAttrLoad_loop todo value spare curAtom acc = Done r ->
    Forall valid_ace (fst r).
Proof.
  induction todo as [|todo IH]; intros value spare curAtom acc r Hacc H;
    cbn [XAttrLoad_loop] in H.
  - injection H as <-. exact Hacc.
  - destruct (curAtom >=? len value); [injection H as <-; exact Hacc|].
    destruct (int (curAtom + int (ATOM_SIZE * 4)) >=? len value);
      [injection H as <-; exact Hacc|].
    go_inv H. eapply IH; [|exact H].
    apply Forall_app. split; [exact Hacc|].
    apply Forall_cons. split; [|apply Forall_nil_2].
    apply NewNFS4ACE_valid; eapply Uint32_is_uint32; eassumption.
Qed.

Lemma XAttrLoadCap_valid (value spare : list byte) (isDir : bool) acl err :
  XAttrLoadCap value spare isDir = Done (acl, err) ->
  isDirectory acl = isDir /\ Forall valid_ace (aceList acl).
Proof.
  unfold XAttrLoadCap. intros H.
  destruct (len value <? ATOM_SIZE).
  - injection H as <- <-. split; [reflexivity|apply Forall_nil_2].
  - go_inv H. injection H as <- <-. split; [reflexivity|].
    eapply XAttrLoad_loop_valid; [apply Forall_nil_2|eassumption].
Qed.

(** C6. The who type is an exact, case-sensitive match over three
    literals: OWNER, GROUP and EVERYONE for "OWNER@", "GROUP@" and
    "EVERYONE@" and for these strings only, NAMED for every other string,
    among them the empty string, "owner@" and "OWNER@ " with a trailing
    blank; [NewNFS4ACE] derives the who type of the ACE it builds by this
    function, and so does every ACE that decode returns. *)
Theorem who_type_derivation :
  (forall who, AceGetWhoType who = NFS4_ACL_WHO_OWNER <-> who = "OWNER@"%string) /\
  (forall who, AceGetWhoType who = NFS4_ACL_WHO_GROUP <-> who = "GROUP@"%string) /\
  (forall who, AceGetWhoType who = NFS4_ACL_WHO_EVERYONE <-> who = "EVERYONE@"%string) /\
  (forall who,
     AceGetWhoType who = NFS4_ACL_WHO_NAMED <->
     who <> "OWNER@"%string /\ who <> "GROUP@"%string /\ who <> "EVERYONE@"%string) /\
  (AceGetWhoType "" = NFS4_ACL_WHO_NAMED /\
   AceGetWhoType "owner@" = NFS4_ACL_WHO_NAMED /\
   AceGetWhoType "OWNER@ " = NFS4_ACL_WHO_NAMED) /\
  (forall aceType flag mask who,
     WhoType (NewNFS4ACE aceType flag mask who) = AceGetWhoType who /\
     Who (NewNFS4ACE aceType flag mask who) = who) /\
  (forall value spare isDir acl err,
     XAttrLoadCap value spare isDir = Done (acl, err) ->
     Forall (fun ace => WhoType ace = AceGetWhoType (Who ace)) (aceList acl)).
Proof.
  unfold NFS4_ACL_WHO_OWNER, NFS4_ACL_WHO_GROUP, NFS4_ACL_WHO_EVERYONE, NFS4_ACL_WHO_NAMED.
  repeat match goal with |- _ /\ _ => split end; try reflexivity.
  1-4: intros who;
       destruct (AceGetWhoType_cases who) as [[-> ->]|[[-> ->]|[[-> ->]|(?&?&?&->)]]];
       unfold NFS4_ACL_WHO_OWNER, NFS4_ACL_WHO_GROUP, NFS4_ACL_WHO_EVERYONE,
         NFS4_ACL_WHO_NAMED;
       split; intros; try discriminate; try reflexivity; try tauto;
       repeat split; discriminate.
  - intros aceType flag mask who. split; reflexivity.
  - intros value spare isDir acl err H.
    apply XAttrLoadCap_valid in H as [_ H].
    eapply Forall_impl; [exact H|]. intros ace (_&_&_&Hw). exact Hw.
Qed.

Lemma who_type_derivation_witness :
  AceGetWhoType "GROUP@" = NFS4_ACL_WHO_GROUP /\
  AceGetWhoType "Group@" = NFS4_ACL_WHO_NAMED /\
  Forall (fun ace => WhoType ace = AceGetWhoType (Who ace))
    [NewNFS4ACE 0 0 2 "EVERYONE@"].
Proof.
  split; [|split].
  - apply (proj1 (proj2 who_type_derivation)). reflexivity.
  - apply (proj1 (proj2 (proj2 (proj2 who_type_derivation)))).
    repeat split; discriminate.
  - apply (proj2 (proj2 (proj2 (proj2 (proj2 (proj2 who_type_derivation)))))
             [x00; x00; x00; x01; x00; x00; x00; x00; x00; x00; x00; x00;
              x00; x00; x00; x02; x00; x00; x00; x09;
              x45; x56; x45; x52; x59; x4f; x4e; x45; x40; x00; x00; x00]
             [] false (mkACL false [NewNFS4ACE 0 0 2 "EVERYONE@"]) None).
    reflexivity.
Defined.

(** ** The mutation API *)

Lemma whoType_guard_rejects (whoType : Z) :
  whoType = NFS4_ACL_WHO_NAMED \/ whoType < NFS4_ACL_WHO_NAMED \/
  whoType > NFS4_ACL_WHO_EVERYONE ->
  exists e, whoType_guard whoType = Some e /\ InvalidTargetingArgument e.
Proof.
  unfold whoType_guard, InvalidTargetingArgument, NFS4_ACL_WHO_NAMED,
    NFS4_ACL_WHO_EVERYONE.
  intros H. destruct (Z.eqb_spec whoType 0) as [->|Hne].
  - eexists. split; [reflexivity|left; reflexivity].
  - destruct (Z.ltb_spec whoType 0); destruct (Z.gtb_spec whoType 3); cbn;
      try (eexists; split; [reflexivity|right; reflexivity]).
    lia.
Qed.

Lemma whoType_guard_accepts (whoType : Z) :
  whoType = NFS4_ACL_WHO_OWNER \/ whoType = NFS4_ACL_WHO_GROUP \/
  whoType = NFS4_ACL_WHO_EVERYONE ->
  whoType_guard whoType = None.
Proof. intros [->|[->| ->]]; reflexivity. Qed.

(** C7. Each by-who-type mutation (apply, remove, set) called with the who
    type NAMED, or with a who type outside OWNER..EVERYONE, returns an
    InvalidTargetingArgument error, and the ACL it returns is the ACL it was
    given: no entry and no field has changed. *)
Theorem by_who_type_rejects (acl : NFS4ACL) (accessMask whoType : Z) :
  whoType = NFS4_ACL_WHO_NAMED \/ whoType < NFS4_ACL_WHO_NAMED \/
  whoType > NFS4_ACL_WHO_EVERYONE ->
  exists e,
    InvalidTargetingArgument e /\
    ApplyAccessMaskByWhoType acl accessMask whoType = (acl, Some e) /\
    RemoveAccessMaskByWhoType acl accessMask whoType = (acl, Some e) /\
    SetAccessMaskByWhoType acl accessMask whoType = (acl, Some e).
Proof.
  intros H. destruct (whoType_guard_rejects whoType H) as (e & Hg & He).
  exists e. unfold ApplyAccessMaskByWhoType, RemoveAccessMaskByWhoType,
    SetAccessMaskByWhoType. rewrite Hg. auto.
Qed.

Lemma by_who_type_rejects_witness :
  let acl := mkACL true [NewNFS4ACE 0 0 0x35 "bob"; NewNFS4ACE 1 0 0x03 "OWNER@"] in
  exists e,
    InvalidTargetingArgument e /\
    ApplyAccessMaskByWhoType acl 0xff NFS4_ACL_WHO_NAMED = (acl, Some e) /\
    RemoveAccessMaskByWhoType acl 0xff NFS4_ACL_WHO_NAMED = (acl, Some e) /\
    SetAccessMaskByWhoType acl 0xff NFS4_ACL_WHO_NAMED = (acl, Some e).
Proof.
  intros acl. apply (by_who_type_rejects acl 0xff NFS4_ACL_WHO_NAMED).
  left. reflexivity.
Defined.

(** The loop of each of the nine methods maps one step over the entries:
    an entry the test [sel] accepts gets the access mask [upd] of it, and
    only that. *)
Lemma fmap_step_frame (sel : NFS4ACE -> bool) (upd : NFS4ACE -> Z) (l : list NFS4ACE) :
  let step := fun ace => if sel ace then with_AccessMask ace (upd ace) else ace in
  length (step <$> l) = length l /\
  (forall i ace, l !! i = Some ace -> (step <$> l) !! i = Some (step ace)) /\
  ((forall ace, ace ∈ l -> sel ace = false) -> step <$> l = l).
Proof.
  intros step. split; [apply length_fmap|split].
  - intros i ace Hi. rewrite list_lookup_fmap, Hi. reflexivity.
  - intros Hnone. induction l as [|a l' IH]; [reflexivity|].
    cbn. f_equal.
    + unfold step. rewrite (Hnone a) by constructor. reflexivity.
    + apply IH. intros ace Hin. apply Hnone. now constructor.
Qed.

Lemma with_aceList_same (acl : NFS4ACL) : with_aceList acl (aceList acl) = acl.
Proof. destruct acl. reflexivity. Qed.

(** C9. Every mutation (apply, remove or set; on all entries, by who type
    or by literal who) keeps the directory flag, the number of entries and
    their order; at every position the type, who, who type and flags of the
    entry are unchanged, an entry the targeting predicate does not select is
    unchanged altogether, and a selected entry gets the access mask
    [f mask operand]; when no entry is selected the ACL is returned
    identical, and the call succeeds (for the by-who-type mode: whenever the
    who type is one the mode accepts, OWNER, GROUP or EVERYONE). *)
Theorem mutation_frame (op : mask_op) (t : target) (acl : NFS4ACL) (operand : Z) :
  let acl' := fst (mutate op t acl operand) in
  isDirectory acl' = isDirectory acl /\
  length (aceList acl') = length (aceList acl) /\
  (forall i ace, aceList acl !! i = Some ace ->
     exists ace', aceList acl' !! i = Some ace' /\
       AceType ace' = AceType ace /\ Who ace' = Who ace /\
       WhoType ace' = WhoType ace /\ Flags ace' = Flags ace /\
       (~ selects t ace -> ace' = ace) /\
       (selects t ace -> supported_target t -> is_uint32 (AccessMask ace) ->
        AccessMask ace' = mask_fun op (AccessMask ace) operand)) /\
  ((forall ace, ace ∈ aceList acl -> ~ selects t ace) -> acl' = acl) /\
  (supported_target t -> snd (mutate op t acl operand) = None).
Proof.
  set (sel := fun ace => match t with
                         | TargetAll => true
                         | TargetWhoType w => WhoType ace =? w
                         | TargetWho who => String.eqb (Who ace) who
                         end).
  set (upd := fun ace => match op with
                         | OpApply => or32 (AccessMask ace) operand
                         | OpRemove => andnot32 (AccessMask ace) operand
                         | OpSet => operand
                         end).
  assert (Hsel : forall ace, sel ace = true <-> selects t ace).
  { intros ace. unfold sel. destruct t; cbn.
    - tauto.
    - apply Z.eqb_eq.
    - apply String.eqb_eq. }
  assert (Hupd : forall ace, is_uint32 (AccessMask ace) ->
                             upd ace = mask_fun op (AccessMask ace) operand).
  { intros ace Hm. unfold upd. destruct op; cbn; try reflexivity.
    now apply andnot32_ldiff. }
  destruct (fmap_step_frame sel upd (aceList acl)) as (Hlen & Hlook & Hnone).
  set (step := fun ace => if sel ace then with_AccessMask ace (upd ace) else ace) in *.
  assert (Hcases :
    mutate op t acl operand = (with_aceList acl (step <$> aceList acl), None) \/
    (~ supported_target t /\ exists e, mutate op t acl operand = (acl, Some e))).
  { destruct t as [|w|who].
    - left. destruct op; reflexivity.
    - destruct (whoType_guard w) as [e|] eqn:Hg.
      + right. split.
        * intros Hs. rewrite (whoType_guard_accepts w Hs) in Hg. discriminate.
        * exists e. destruct op; cbn;
            unfold ApplyAccessMaskByWhoType, RemoveAccessMaskByWhoType,
              SetAccessMaskByWhoType; rewrite Hg; reflexivity.
      + left. destruct op; cbn;
          unfold ApplyAccessMaskByWhoType, RemoveAccessMaskByWhoType,
            SetAccessMaskByWhoType; rewrite Hg; reflexivity.
    - left. destruct op; reflexivity. }
  destruct Hcases as [-> | (Hns & e & ->)]; cbn [fst snd].
  - split; [reflexivity|]. split; [exact Hlen|]. split; [|split].
    + intros i ace Hi. exists (step ace). split; [apply Hlook, Hi|].
      unfold step. specialize (Hsel ace). specialize (Hupd ace).
      destruct (sel ace); cbn.
      * repeat split; try reflexivity.
        -- intros Hn. exfalso. apply Hn, Hsel. reflexivity.
        -- intros _ _ Hm. apply Hupd, Hm.
      * repeat split; try reflexivity.
        intros Hs. apply Hsel in Hs. discriminate.
    + intros Hn. cbn. rewrite Hnone; [apply with_aceList_same|].
      intros ace Hin. specialize (Hn ace Hin). specialize (Hsel ace).
      destruct (sel ace); [exfalso; apply Hn, Hsel; reflexivity|reflexivity].
    + reflexivity.
  - split; [reflexivity|]. split; [reflexivity|]. split; [|split].
    + intros i ace Hi. exists ace. repeat split; try assumption; try reflexivity.
      intros _ Hs. contradiction.
    + reflexivity.
    + intros Hs. contradiction.
Qed.

Lemma mutation_frame_witness :
  let acl := mkACL false [NewNFS4ACE 0 0 0x35 "OWNER@"; NewNFS4ACE 1 0 0x35 "bob"] in
  fst (mutate OpRemove (TargetWhoType NFS4_ACL_WHO_GROUP) acl 0x03) = acl /\
  snd (mutate OpApply (TargetWho "bob") acl 0x03) = None /\
  exists ace',
    aceList (fst (mutate OpApply (TargetWho "bob") acl 0x03)) !! 1%nat = Some ace' /\
    AccessMask ace' = 0x37.
Proof.
  intros acl. split; [|split].
  - apply (proj1 (proj2 (proj2 (proj2
             (mutation_frame OpRemove (TargetWhoType NFS4_ACL_WHO_GROUP) acl 0x03))))).
    intros ace Hin Hsel. cbn in Hsel.
    apply list_elem_of_In in Hin. cbn in Hin.
    destruct Hin as [<-|[<-|[]]]; discriminate Hsel.
  - apply (proj2 (proj2 (proj2 (proj2
             (mutation_frame OpApply (TargetWho "bob") acl 0x03))))).
    exact I.
  - destruct (proj1 (proj2 (proj2 (mutation_frame OpApply (TargetWho "bob") acl 0x03)))
               1%nat (NewNFS4ACE 1 0 0x35 "bob") eq_refl)
      as (ace' & Hl & _ & _ & _ & _ & _ & Hm).
    exists ace'. split; [exact Hl|].
    apply Hm; [reflexivity|exact I|]. unfold is_uint32. cbn. lia.
Defined.
(** ** Decoding: concrete buffers *)

(** C10 (as amended). The sequence of the atoms [1][0][0][2][6], the
    bytes of "OWNER@" and two padding bytes is 28 bytes long (five atoms and
    eight bytes); whatever the padding bytes hold, it decodes without error
    to exactly one ACE
    of type ALLOW with no flag, the access mask WRITE_DATA alone, the who
    string "OWNER@" and the who type OWNER; rendered with verbose = false and
    isDir = false that ACE prints as "A::OWNER@:w". *)
Theorem scenario_owner_write (pad1 pad2 : byte) (isDir : bool) :
  let value :=
    [x00; x00; x00; x01;  x00; x00; x00; x00;  x00; x00; x00; x00;
     x00; x00; x00; x02;  x00; x00; x00; x06;
     x4f; x57; x4e; x45; x52; x40; pad1; pad2] in
  length value = 28%nat /\
  exists ace,
    XAttrLoad value isDir = Done ({| isDirectory := isDir; aceList := [ace] |}, None) /\
    AceType ace = NFS4_ACE_ACCESS_ALLOWED_ACE_TYPE /\
    Flags ace = 0 /\
    AccessMask ace = NFS4_ACE_WRITE_DATA /\
    Who ace = "OWNER@"%string /\
    WhoType ace = NFS4_ACL_WHO_OWNER /\
    PrintACE ace false false = "A::OWNER@:w"%string.
Proof.
  intros value. subst value. split; [vm_compute; reflexivity|].
  exists (NewNFS4ACE 0 0 2 "OWNER@"). repeat split; vm_compute; reflexivity.
Qed.

(** C10, the claim as stated: the sequence it describes does not have 24
    bytes but 28, and its first 24 bytes (the five atoms and "OWNE") do not
    decode: the who string would end at byte 26. *)
Lemma scenario_is_not_24_bytes :
  let value :=
    [x00; x00; x00; x01;  x00; x00; x00; x00;  x00; x00; x00; x00;
     x00; x00; x00; x02;  x00; x00; x00; x06;
     x4f; x57; x4e; x45; x52; x40; x00; x00] in
  length value <> 24%nat /\ XAttrLoad (take 24 value) false = Panic.
Proof. split; [discriminate|vm_compute; reflexivity]. Qed.

(** C1. A buffer that declares one entry with who_length 6 and holds a
    single byte after the four header atoms: [XAttrLoad] has no check of the
    who length against the buffer; the slice expression panics (no error is
    returned), and when the slice has spare capacity the bytes beyond its
    length are read into the who string. *)
Theorem who_length_overrun :
  let value :=
    [x00; x00; x00; x01;  x00; x00; x00; x00;  x00; x00; x00; x00;
     x00; x00; x00; x02;  x00; x00; x00; x06;  x4f] in
  XAttrLoad value false = Panic /\
  XAttrLoadCap value [x57; x4e; x45; x52; x40] false =
    Done ({| isDirectory := false; aceList := [NewNFS4ACE 0 0 2 "OWNER@"] |}, None).
Proof. split; vm_compute; reflexivity. Qed.


(** ** Decoding: one iteration of the loop *)

Lemma slice_from_ok {A} (s : list A) (k : Z) :
  0 <= k <= len s -> slice_from s k = Done (drop (Z.to_nat k) s).
Proof.
  intros Hk. unfold slice_from.
  destruct (Z.leb_spec 0 k); destruct (Z.leb_spec k (len s)); try lia. reflexivity.
Qed.

Lemma Uint32_drop (value : list byte) (k : Z) :
  0 <= k -> k + 4 <= len value ->
  Uint32 (drop (Z.to_nat k) value) = Done (atom_at value k).
Proof.
  intros Hk Hlen. unfold atom_at.
  assert (Hd : (4 <= length (drop (Z.to_nat k) value))%nat)
    by (rewrite length_drop; unfold len in Hlen; lia).
  destruct (drop (Z.to_nat k) value) as [|b0 [|b1 [|b2 [|b3 r]]]]; cbn in Hd; try lia.
  rewrite Uint32_value. reflexivity.
Qed.

Lemma atom_at_is_uint32 (value : list byte) (k : Z) : is_uint32 (atom_at value k).
Proof.
  unfold atom_at. destruct (Uint32 _) eqn:E.
  - eapply Uint32_is_uint32, E.
  - unfold is_uint32. lia.
Qed.

(** With more than four atoms left, an iteration reads the four header
    atoms, slices the who string and goes on behind its padding. *)
Lemma XAttrLoad_loop_step (todo : nat) (value spare : list byte) (cur : Z)
    (acc : list NFS4ACE) :
  let whoLen := atom_at value (cur + 12) in
  0 <= cur -> cur + 16 < len value -> cur + 16 + padded_length whoLen <= MaxInt ->
  XAttrLoad_loop (S todo) value spare cur acc =
  (b <- slice_cap value spare (cur + 16) (cur + 16 + whoLen);;
   XAttrLoad_loop todo value spare (cur + 16 + padded_length whoLen)
     (acc ++ [NewNFS4ACE (atom_at value cur) (atom_at value (cur + 4))
                (atom_at value (cur + 8)) (string_of_list_byte b)])).
Proof.
  intros whoLen Hcur Hlen Hmax. unfold MaxInt in Hmax.
  pose proof (atom_at_is_uint32 value (cur + 12)) as Hw. fold whoLen in Hw.
  unfold is_uint32 in Hw.
  assert (Hp : whoLen <= padded_length whoLen < whoLen + 4)
    by (unfold padded_length; Z.div_mod_to_equations; lia).
  cbn [XAttrLoad_loop]. unfold ATOM_SIZE.
  rewrite (int_small (4 * 4)) by (unfold MinInt, MaxInt; lia).
  rewrite (int_small (cur + 4 * 4)) by (unfold MinInt, MaxInt; lia).
  rewrite (int_small (cur + 4)) by (unfold MinInt, MaxInt; lia).
  rewrite (int_small (cur + 4 + 4)) by (unfold MinInt, MaxInt; lia).
  rewrite (int_small (cur + 4 + 4 + 4)) by (unfold MinInt, MaxInt; lia).
  rewrite (int_small (cur + 4 + 4 + 4 + 4)) by (unfold MinInt, MaxInt; lia).
  destruct (Z.geb_spec cur (len value)); [lia|].
  destruct (Z.geb_spec (cur + 4 * 4) (len value)); [lia|].
  rewrite !slice_from_ok by lia. cbn [go_bind].
  rewrite !Uint32_drop by lia. cbn [go_bind].
  replace (cur + 4 + 4) with (cur + 8) by lia.
  replace (cur + 8 + 4) with (cur + 12) by lia.
  replace (cur + 12 + 4) with (cur + 16) by lia.
  fold whoLen.
  rewrite (int_small (whoLen + (cur + 16))) by (unfold MinInt, MaxInt; lia).
  rewrite AceWhoStringAtomLength_fits by (unfold MaxInt; lia).
  rewrite (int_small (cur + 16 + _)) by (unfold MinInt, MaxInt; lia).
  replace (whoLen + (cur + 16)) with (cur + 16 + whoLen) by lia.
  reflexivity.
Qed.

(** With fewer than four atoms left (or exactly four), an iteration
    returns the entries decoded so far and the error. *)
Lemma XAttrLoad_loop_short (todo : nat) (value spare : list byte) (cur : Z)
    (acc : list NFS4ACE) :
  0 <= cur -> cur + 16 <= MaxInt -> len value - cur <= 16 ->
  XAttrLoad_loop (S todo) value spare cur acc =
  Done (acc, Some (errors_New "buffer overflow")).
Proof.
  intros Hcur Hmax Hlen. unfold MaxInt in Hmax.
  cbn [XAttrLoad_loop]. unfold ATOM_SIZE.
  rewrite (int_small (4 * 4)) by (unfold MinInt, MaxInt; lia).
  rewrite (int_small (cur + 4 * 4)) by (unfold MinInt, MaxInt; lia).
  destruct (Z.geb_spec cur (len value)); [reflexivity|].
  destruct (Z.geb_spec (cur + 4 * 4) (len value)); [reflexivity|lia].
Qed.

Lemma XAttrLoadCap_unfold (value spare : list byte) (isDir : bool) :
  4 <= len value ->
  XAttrLoadCap value spare isDir =
  (r <- XAttrLoad_loop (Z.to_nat (atom_at value 0)) value spare 4 [];;
   Done ({| isDirectory := isDir; aceList := fst r |}, snd r)).
Proof.
  intros Hlen. unfold XAttrLoadCap, ATOM_SIZE.
  destruct (Z.ltb_spec (len value) 4); [lia|].
  rewrite slice_from_ok by lia. cbn [go_bind].
  rewrite Uint32_drop by lia. cbn [go_bind].
  rewrite (int_small (0 + 4)) by (unfold MinInt, MaxInt; lia). reflexivity.
Qed.

Lemma atom_at_0 (value : list byte) (v : Z) : Uint32 value = Done v -> atom_at value 0 = v.
Proof. unfold atom_at. cbn [Z.to_nat]. rewrite drop_0. now intros ->. Qed.

(** The general form of the overrun of C1: whenever the first entry can be
    read and its who_length runs past the end of a slice without spare
    capacity, the decoder panics. *)
Lemma who_length_overrun_first_entry (value : list byte) (isDir : bool) :
  1 <= atom_at value 0 ->
  20 < len value -> len value + 2 ^ 32 + 3 <= MaxInt ->
  len value - 20 < atom_at value 16 ->
  XAttrLoad value isDir = Panic.
Proof.
  intros Hn Hlen Hmax Hover.
  pose proof (atom_at_is_uint32 value 16) as Hw. unfold is_uint32 in Hw.
  unfold XAttrLoad. rewrite XAttrLoadCap_unfold by lia.
  destruct (Z.to_nat (atom_at value 0)) as [|todo] eqn:Hnat; [lia|].
  assert (Hp : padded_length (atom_at value 16) < atom_at value 16 + 4)
    by (unfold padded_length; Z.div_mod_to_equations; lia).
  rewrite XAttrLoad_loop_step; change (4 + 12) with 16; change (4 + 16) with 20;
    try (unfold MaxInt in *; lia).
  unfold slice_cap. rewrite app_nil_r.
  destruct (Z.leb_spec (20 + atom_at value 16) (len value)); [lia|].
  rewrite andb_false_r. reflexivity.
Qed.

(** ** Truncated input *)

Lemma XAttrLoad_loop_error (todo : nat) :
  forall value spare curAtom acc aces e,
    XAttrLoad_loop todo value spare curAtom acc = Done (aces, Some e) ->
    MalformedBuffer e.
Proof.
  induction todo as [|todo IH]; intros value spare curAtom acc aces e H;
    cbn [XAttrLoad_loop] in H.
  - discriminate.
  - destruct (curAtom >=? len value); [injection H as _ <-; right; reflexivity|].
    destruct (int (curAtom + int (ATOM_SIZE * 4)) >=? len value);
      [injection H as _ <-; right; reflexivity|].
    go_inv H. exact (IH _ _ _ _ _ _ H).
Qed.

(** C4 (as amended). Decode rejects truncated input with a MalformedBuffer
    error: a buffer shorter than one atom is refused before the entry count
    is read; a buffer whose entry count is at least one and that holds fewer
    than 16 bytes after the count atom is refused; and whenever the loop
    reaches a declared entry with fewer than four atoms left it stops with
    the error.  Every error decode returns is a MalformedBuffer.  The ACL
    value returned next to the error holds the entries decoded before the
    failure (none in the first two cases), each one a complete ACE. *)
Theorem truncated_input_rejected :
  (forall value spare isDir,
     len value < 4 ->
     XAttrLoadCap value spare isDir =
       Done ({| isDirectory := isDir; aceList := [] |},
             Some (errors_New "invalid input buffer 'value'"))) /\
  (forall value spare isDir numAces,
     Uint32 value = Done numAces -> 1 <= numAces -> len value - 4 < 16 ->
     XAttrLoadCap value spare isDir =
       Done ({| isDirectory := isDir; aceList := [] |},
             Some (errors_New "buffer overflow"))) /\
  (forall todo value spare cur acc,
     0 <= cur -> cur + 16 <= MaxInt -> len value - cur < 16 ->
     XAttrLoad_loop (S todo) value spare cur acc =
       Done (acc, Some (errors_New "buffer overflow"))) /\
  (forall value spare isDir acl e,
     XAttrLoadCap value spare isDir = Done (acl, Some e) ->
     MalformedBuffer e /\ Forall valid_ace (aceList acl)).
Proof.
  split; [|split; [|split]].
  - intros value spare isDir Hlen. unfold XAttrLoadCap, ATOM_SIZE.
    destruct (Z.ltb_spec (len value) 4); [reflexivity|lia].
  - intros value spare isDir numAces Hn Hn1 Hlen.
    assert (H4 : 4 <= len value).
    { unfold len. destruct value as [|b0 [|b1 [|b2 [|b3 r]]]]; try discriminate.
      cbn [length]. lia. }
    rewrite XAttrLoadCap_unfold by exact H4. rewrite (atom_at_0 _ _ Hn).
    destruct (Z.to_nat numAces) as [|todo] eqn:Hnat; [lia|].
    rewrite XAttrLoad_loop_short by (unfold MaxInt; lia). reflexivity.
  - intros todo value spare cur acc Hcur Hmax Hlen.
    apply XAttrLoad_loop_short; lia.
  - intros value spare isDir acl e H. split.
    + unfold XAttrLoadCap in H. destruct (len value <? ATOM_SIZE).
      * injection H as _ <-. left. reflexivity.
      * go_inv H. injection H as _ He.
        match goal with
        | E : XAttrLoad_loop _ _ _ _ _ = Done ?r |- _ =>
            destruct r as [aces err]; cbn in He; subst err;
            exact (XAttrLoad_loop_error _ _ _ _ _ _ _ E)
        end.
    + eapply XAttrLoadCap_valid, H.
Qed.

Lemma truncated_input_rejected_witness :
  XAttrLoadCap [x00; x00; x01] [] true =
    Done ({| isDirectory := true; aceList := [] |},
          Some (errors_New "invalid input buffer 'value'")) /\
  XAttrLoadCap [x00; x00; x00; x01; x00; x00; x00; x00; x00; x00; x00; x00] [] true =
    Done ({| isDirectory := true; aceList := [] |},
          Some (errors_New "buffer overflow")) /\
  XAttrLoad_loop 1 [x00; x00; x00; x02; x00] [] 4 [] =
    Done ([], Some (errors_New "buffer overflow")) /\
  MalformedBuffer (errors_New "buffer overflow").
Proof.
  split; [|split; [|split]].
  - apply (proj1 truncated_input_rejected). unfold len. cbn. lia.
  - apply (proj1 (proj2 truncated_input_rejected) _ _ _ 1).
    + reflexivity.
    + lia.
    + unfold len. cbn. lia.
  - apply (proj1 (proj2 (proj2 truncated_input_rejected))).
    + lia.
    + unfold MaxInt. lia.
    + unfold len. cbn. lia.
  - apply (proj2 (proj2 (proj2 truncated_input_rejected))
             [x00; x00; x00; x01; x00] [] false
             {| isDirectory := false; aceList := [] |} (errors_New "buffer overflow")).
    vm_compute. reflexivity.
Defined.

(** C4, the claim as stated: a buffer that declares two entries and ends
    after the first one is refused, and the ACL returned with the error is
    populated with the first entry. *)
Lemma partial_acl_returned :
  XAttrLoad
    [x00; x00; x00; x02;  x00; x00; x00; x00;  x00; x00; x00; x00;
     x00; x00; x00; x02;  x00; x00; x00; x06;
     x4f; x57; x4e; x45; x52; x40; x00; x00] false =
  Done ({| isDirectory := false; aceList := [NewNFS4ACE 0 0 2 "OWNER@"] |},
        Some (errors_New "buffer overflow")).
Proof. vm_compute. reflexivity. Qed.

(** ** Encoding: the buffer [PackXAttr] fills *)

Lemma length_list_byte_of_string (s : string) :
  length (list_byte_of_string s) = String.length s.
Proof.
  unfold list_byte_of_string. rewrite length_map.
  induction s as [|c s IH]; [reflexivity|]. cbn. now rewrite IH.
Qed.

Lemma length_string_of_list_byte (l : list byte) :
  String.length (string_of_list_byte l) = length l.
Proof.
  unfold string_of_list_byte.
  induction l as [|b l IH]; [reflexivity|]. cbn. now rewrite IH.
Qed.

Lemma length_be32 (v : Z) : length (be32 v) = 4%nat.
Proof. reflexivity. Qed.

Lemma padded_length_bounds (n : Z) :
  0 <= n -> n <= padded_length n < n + 4 /\ padded_length n mod 4 = 0.
Proof. intros Hn. unfold padded_length. Z.div_mod_to_equations. lia. Qed.

Lemma strlen_nonneg (s : string) : 0 <= strlen s.
Proof. unfold strlen. lia. Qed.

Lemma wire_size_nonneg (aces : list NFS4ACE) : 0 <= wire_size aces.
Proof.
  induction aces as [|ace aces IH]; cbn [wire_size]; [lia|].
  pose proof (padded_length_bounds _ (strlen_nonneg (Who ace))).
  pose proof (strlen_nonneg (Who ace)). lia.
Qed.

Lemma len_wire_entry (ace : NFS4ACE) :
  len (wire_entry ace) = 16 + padded_length (strlen (Who ace)).
Proof.
  pose proof (padded_length_bounds _ (strlen_nonneg (Who ace))) as Hp.
  unfold len, wire_entry.
  rewrite !length_app, !length_be32, length_list_byte_of_string, length_replicate.
  unfold strlen in *. lia.
Qed.

Lemma len_wire_entries (aces : list NFS4ACE) : len (wire_entries aces) = wire_size aces.
Proof.
  induction aces as [|ace aces IH]; [reflexivity|].
  cbn [wire_entries wire_size]. rewrite <- IH, <- len_wire_entry.
  unfold len. rewrite length_app. lia.
Qed.

Lemma len_app {A} (l k : list A) : len (l ++ k) = len l + len k.
Proof. unfold len. rewrite length_app. lia. Qed.

Lemma len_nonneg {A} (l : list A) : 0 <= len l.
Proof. unfold len. lia. Qed.

(** A write of four bytes, and a copy, into the zero-filled rest of the
    buffer that starts at the cursor. *)
Lemma PutUint32_at_fill (done : list byte) (n : nat) (v : Z) :
  (4 <= n)%nat ->
  PutUint32_at (done ++ replicate n x00) (len done) v =
  Done ((done ++ be32 v) ++ replicate (n - 4) x00).
Proof.
  intros Hn. unfold PutUint32_at.
  rewrite slice_from_ok by (rewrite len_app; pose proof (len_nonneg done);
                            pose proof (len_nonneg (replicate n x00)); lia).
  unfold len. rewrite Nat2Z.id, drop_app_length, take_app_length. cbn [go_bind].
  destruct n as [|[|[|[|n]]]]; try lia.
  cbn [replicate]. rewrite <- app_assoc. repeat f_equal. lia.
Qed.

Lemma copy_at_fill (done src : list byte) (n : nat) :
  (length src <= n)%nat ->
  copy_at (done ++ replicate n x00) (len done) src =
  Done ((done ++ src) ++ replicate (n - length src) x00).
Proof.
  intros Hn. unfold copy_at.
  rewrite slice_from_ok by (rewrite len_app; pose proof (len_nonneg done);
                            pose proof (len_nonneg (replicate n x00)); lia).
  unfold len. rewrite Nat2Z.id, drop_app_length, take_app_length. cbn [go_bind].
  rewrite length_replicate, Nat.min_r by lia.
  rewrite firstn_all, drop_replicate, <- app_assoc. reflexivity.
Qed.

Lemma XAttrSize_fold (aces : list NFS4ACE) (a : Z) :
  0 <= a -> a + wire_size aces <= MaxInt ->
  fold_left
    (fun xAttrSize ace =>
       let xAttrSize := int (xAttrSize + int (ATOM_SIZE * 4)) in
       int (xAttrSize + AceWhoStringAtomLength (strlen (Who ace))))
    aces a = a + wire_size aces.
Proof.
  revert a. induction aces as [|ace aces IH]; intros a Ha Hmax; cbn [fold_left wire_size] in *.
  - lia.
  - pose proof (wire_size_nonneg aces) as Hw.
    pose proof (padded_length_bounds _ (strlen_nonneg (Who ace))) as Hp.
    pose proof (strlen_nonneg (Who ace)) as Hs.
    unfold MaxInt in Hmax. unfold ATOM_SIZE.
    rewrite (int_small (4 * 4)) by (unfold MinInt, MaxInt; lia).
    rewrite (int_small (a + 4 * 4)) by (unfold MinInt, MaxInt; lia).
    rewrite AceWhoStringAtomLength_padded by (unfold MaxInt; lia).
    rewrite int_small by (unfold MinInt, MaxInt; lia).
    rewrite IH by (unfold MaxInt; lia). lia.
Qed.

Lemma XAttrSize_wire (acl : NFS4ACL) :
  4 + wire_size (aceList acl) <= MaxInt ->
  XAttrSize acl = 4 + wire_size (aceList acl).
Proof. intros H. unfold XAttrSize. now apply XAttrSize_fold. Qed.

Lemma len_be32 (v : Z) : len (be32 v) = 4.
Proof. reflexivity. Qed.

(** The loop of [PackXAttr] fills the zero bytes behind the cursor with the
    entries in wire format; what each who string leaves of its last atom
    keeps the zeros [make] put there. *)
Lemma PackXAttr_loop_wire (aces : list NFS4ACE) :
  forall (done : list byte) (cur : Z),
    cur = len done ->
    cur + wire_size aces <= MaxInt ->
    PackXAttr_loop aces (done ++ replicate (Z.to_nat (wire_size aces)) x00) cur =
    Done (done ++ wire_entries aces).
Proof.
  induction aces as [|ace aces IH]; intros done cur Hcur Hmax;
    cbn [PackXAttr_loop wire_size wire_entries] in *.
  - cbn. reflexivity.
  - pose proof (wire_size_nonneg aces) as Hw.
    pose proof (padded_length_bounds _ (strlen_nonneg (Who ace))) as Hp.
    pose proof (strlen_nonneg (Who ace)) as Hs.
    pose proof (len_nonneg done) as Hd.
    unfold MaxInt in Hmax. unfold ATOM_SIZE.
    set (p := padded_length (strlen (Who ace))) in *.
    set (w := wire_size aces) in *.
    rewrite AceWhoStringAtomLength_padded by (unfold MaxInt; lia). fold p.
    rewrite (int_small (cur + 4)) by (unfold MinInt, MaxInt; lia).
    rewrite (int_small (cur + 4 + 4)) by (unfold MinInt, MaxInt; lia).
    rewrite (int_small (cur + 4 + 4 + 4)) by (unfold MinInt, MaxInt; lia).
    rewrite (int_small (cur + 4 + 4 + 4 + 4)) by (unfold MinInt, MaxInt; lia).
    rewrite (int_small (cur + 4 + 4 + 4 + 4 + p)) by (unfold MinInt, MaxInt; lia).
    subst cur.
    rewrite PutUint32_at_fill by lia. cbn [go_bind].
    set (d1 := done ++ be32 (AceType ace)).
    replace (len done + 4) with (len d1)
      by (unfold d1; rewrite len_app, len_be32; lia).
    rewrite PutUint32_at_fill by lia. cbn [go_bind].
    set (d2 := d1 ++ be32 (Flags ace)).
    replace (len d1 + 4) with (len d2)
      by (unfold d2; rewrite len_app, len_be32; lia).
    rewrite PutUint32_at_fill by lia. cbn [go_bind].
    set (d3 := d2 ++ be32 (AccessMask ace)).
    replace (len d2 + 4) with (len d3)
      by (unfold d3; rewrite len_app, len_be32; lia).
    rewrite PutUint32_at_fill by lia. cbn [go_bind].
    set (d4 := d3 ++ be32 (uint32 (strlen (Who ace)))).
    replace (len d3 + 4) with (len d4)
      by (unfold d4; rewrite len_app, len_be32; lia).
    assert (Hd4 : len d4 = len done + 16)
      by (unfold d4, d3, d2, d1; rewrite !len_app, !len_be32; lia).
    rewrite copy_at_fill
      by (rewrite length_list_byte_of_string; unfold strlen in *; lia).
    cbn [go_bind]. rewrite length_list_byte_of_string.
    match goal with
    | |- context [replicate ?n x00] =>
        replace n with (Z.to_nat (p - strlen (Who ace)) + Z.to_nat w)%nat
          by (unfold strlen in *; lia)
    end.
    rewrite replicate_add, app_assoc.
    set (d5 := (d4 ++ list_byte_of_string (Who ace)) ++
               replicate (Z.to_nat (p - strlen (Who ace))) x00).
    assert (Hd5 : len d4 + p = len d5).
    { unfold d5. rewrite !len_app. unfold len at 3 4.
      rewrite length_list_byte_of_string, length_replicate. unfold strlen in *. lia. }
    rewrite (IH d5 (len d4 + p) Hd5) by (unfold MaxInt; lia).
    f_equal. unfold d5, d4, d3, d2, d1, wire_entry. fold p.
    rewrite <- !app_assoc. reflexivity.
Qed.

(** [PackXAttr] succeeds and produces the wire format whenever the size of
    the buffer is an [int]. *)
Lemma PackXAttr_wire (acl : NFS4ACL) :
  4 + wire_size (aceList acl) <= MaxInt ->
  PackXAttr acl = Done (wire_acl (aceList acl), None).
Proof.
  intros Hmax. pose proof (wire_size_nonneg (aceList acl)) as Hw.
  unfold PackXAttr. rewrite XAttrSize_wire by exact Hmax.
  unfold make_bytes. destruct (Z.ltb_spec (4 + wire_size (aceList acl)) 0); [lia|].
  cbn [go_bind].
  change (PutUint32_at ?b 0 ?v) with (PutUint32_at ([] ++ b) (len (@nil byte)) v).
  rewrite PutUint32_at_fill by lia. cbn [go_bind app].
  unfold ATOM_SIZE. rewrite (int_small (0 + 4)) by (unfold MinInt, MaxInt; lia).
  replace (Z.to_nat (4 + wire_size (aceList acl)) - 4)%nat
    with (Z.to_nat (wire_size (aceList acl))) by lia.
  rewrite (PackXAttr_loop_wire _ _ (0 + 4)) by (rewrite ?len_be32; lia).
  reflexivity.
Qed.

(** ** Round trip: decoding what [PackXAttr] produced *)

Lemma atom_at_app (pre rest : list byte) (v : Z) :
  atom_at (pre ++ be32 v ++ rest) (len pre) = uint32 v.
Proof.
  unfold atom_at, len. rewrite Nat2Z.id, drop_app_length, Uint32_be32. reflexivity.
Qed.

Lemma uint32_small (v : Z) : is_uint32 v -> uint32 v = v.
Proof. unfold is_uint32, uint32. intros H. now apply Z.mod_small. Qed.

Lemma slice_cap_within {A} (s spare : list A) (lo hi : Z) :
  0 <= lo <= hi -> hi <= len s ->
  slice_cap s spare lo hi = Done (take (Z.to_nat (hi - lo)) (drop (Z.to_nat lo) s)).
Proof.
  intros Hlo Hhi. unfold slice_cap. pose proof (len_nonneg spare).
  destruct (Z.leb_spec 0 lo); destruct (Z.leb_spec lo hi);
    destruct (Z.leb_spec hi (len (s ++ spare))); rewrite ?len_app in *; try lia.
  cbn [andb]. f_equal. unfold len in *.
  rewrite drop_app_le by lia. rewrite take_app_le by (rewrite length_drop; lia).
  reflexivity.
Qed.

Lemma NewNFS4ACE_eta (ace : NFS4ACE) :
  WhoType ace = AceGetWhoType (Who ace) ->
  NewNFS4ACE (AceType ace) (Flags ace) (AccessMask ace) (Who ace) = ace.
Proof. destruct ace. cbn. intros ->. reflexivity. Qed.

Lemma strlen_empty (s : string) : strlen s = 0 -> s = EmptyString.
Proof. destruct s; [reflexivity|]. unfold strlen. cbn. lia. Qed.

Lemma uint32_idem (v : Z) : uint32 (uint32 v) = uint32 v.
Proof. unfold uint32. apply Z.mod_mod. lia. Qed.

(** The four header atoms of an entry in wire format. *)
Lemma wire_entry_atoms (pre rest : list byte) (ace : NFS4ACE) :
  let value := pre ++ wire_entry ace ++ rest in
  atom_at value (len pre) = uint32 (AceType ace) /\
  atom_at value (len pre + 4) = uint32 (Flags ace) /\
  atom_at value (len pre + 8) = uint32 (AccessMask ace) /\
  atom_at value (len pre + 12) = uint32 (strlen (Who ace)).
Proof.
  intros value. unfold value, wire_entry. rewrite <- !app_assoc.
  split; [apply atom_at_app|]. split; [|split].
  - rewrite (app_assoc pre).
    replace (len pre + 4) with (len (pre ++ be32 (AceType ace)))
      by (rewrite len_app, len_be32; lia).
    apply atom_at_app.
  - rewrite (app_assoc pre), (app_assoc (pre ++ _)).
    replace (len pre + 8) with (len ((pre ++ be32 (AceType ace)) ++ be32 (Flags ace)))
      by (rewrite !len_app, !len_be32; lia).
    apply atom_at_app.
  - rewrite (app_assoc pre), (app_assoc (pre ++ _)), (app_assoc ((pre ++ _) ++ _)).
    replace (len pre + 12)
      with (len (((pre ++ be32 (AceType ace)) ++ be32 (Flags ace)) ++
                 be32 (AccessMask ace)))
      by (rewrite !len_app, !len_be32; lia).
    rewrite atom_at_app. apply uint32_idem.
Qed.

(** The bytes behind the header atoms of an entry in wire format. *)
Lemma wire_entry_who (pre rest : list byte) (ace : NFS4ACE) :
  drop (Z.to_nat (len pre + 16)) (pre ++ wire_entry ace ++ rest) =
  list_byte_of_string (Who ace) ++
  replicate (Z.to_nat (padded_length (strlen (Who ace)) - strlen (Who ace))) x00 ++ rest.
Proof.
  unfold wire_entry. rewrite <- !app_assoc.
  rewrite (app_assoc pre), (app_assoc (pre ++ _)), (app_assoc ((pre ++ _) ++ _)),
    (app_assoc (((pre ++ _) ++ _) ++ _)).
  rewrite drop_app_length'
    by (rewrite !length_app, !length_be32; unfold len; lia).
  reflexivity.
Qed.

(** The loop reads back the entries of a buffer in wire format. *)
Lemma XAttrLoad_loop_wire (aces : list NFS4ACE) :
  forall (pre : list byte) (acc : list NFS4ACE),
    Forall valid_ace aces -> Forall who_fits aces -> last_who_nonempty aces ->
    len pre + wire_size aces <= MaxInt ->
    XAttrLoad_loop (length aces) (pre ++ wire_entries aces) [] (len pre) acc =
    Done (acc ++ aces, None).
Proof.
  induction aces as [|ace aces IH]; intros pre acc Hvalid Hfits Hlast Hmax;
    cbn [length wire_entries wire_size] in *.
  - cbn [XAttrLoad_loop]. rewrite app_nil_r. reflexivity.
  - apply Forall_cons in Hvalid as [(Ht & Hf & Hm & Hwt) Hvalid].
    apply Forall_cons in Hfits as [Hfit Hfits]. unfold who_fits in Hfit.
    pose proof (wire_size_nonneg aces) as Hw.
    pose proof (padded_length_bounds _ (strlen_nonneg (Who ace))) as Hp.
    pose proof (strlen_nonneg (Who ace)) as Hs.
    pose proof (len_nonneg pre) as Hpre.
    unfold MaxInt in Hmax.
    set (value := pre ++ wire_entry ace ++ wire_entries aces).
    assert (Hlen : len value = len pre + 16 + padded_length (strlen (Who ace)) +
                               wire_size aces).
    { unfold value. rewrite !len_app, len_wire_entry, len_wire_entries. lia. }
    assert (Hmore : 0 < padded_length (strlen (Who ace)) + wire_size aces).
    { destruct aces as [|ace' aces'].
      - unfold last_who_nonempty in Hlast. cbn in Hlast.
        destruct (Z.eq_dec (strlen (Who ace)) 0) as [H0|H0];
          [apply strlen_empty in H0; contradiction|lia].
      - cbn [wire_size].
        pose proof (padded_length_bounds _ (strlen_nonneg (Who ace'))).
        pose proof (strlen_nonneg (Who ace')). pose proof (wire_size_nonneg aces'). lia. }
    destruct (wire_entry_atoms pre (wire_entries aces) ace) as (A0 & A4 & A8 & A12).
    fold value in A0, A4, A8, A12.
    rewrite uint32_small in A0, A4, A8, A12
      by (assumption || (unfold is_uint32; lia)).
    fold value.
    rewrite XAttrLoad_loop_step by (rewrite ?A12; unfold MaxInt; lia).
    rewrite A12.
    rewrite A0, A4, A8.
    rewrite slice_cap_within by lia.
    assert (Hwho : take (Z.to_nat (len pre + 16 + strlen (Who ace) - (len pre + 16)))
                     (drop (Z.to_nat (len pre + 16)) value) =
                   list_byte_of_string (Who ace)).
    { unfold value. rewrite wire_entry_who.
      rewrite take_app_length'
        by (rewrite length_list_byte_of_string; unfold strlen, len; lia).
      reflexivity. }
    rewrite Hwho. cbn [go_bind].
    rewrite string_of_list_byte_of_string, (NewNFS4ACE_eta ace Hwt).
    replace (len pre + 16 + padded_length (strlen (Who ace)))
      with (len (pre ++ wire_entry ace))
      by (rewrite len_app, len_wire_entry; lia).
    unfold value. rewrite (app_assoc pre).
    rewrite IH; try assumption.
    + rewrite <- app_assoc. reflexivity.
    + destruct aces as [|ace' aces']; [exact I|exact Hlast].
    + rewrite len_app, len_wire_entry. unfold MaxInt. lia.
Qed.

(** C2 (as amended). For every in-memory ACL whose ACEs are well formed
    (three 32-bit fields, the who type of their who string), with fewer than
    2^32 entries, every who string shorter than 2^32 bytes, an encoded size
    that is an [int], and a last entry whose who string is not empty:
    [PackXAttr] succeeds, and [XAttrLoad] of its result and the directory
    flag succeeds and returns the very same ACL: every entry with its type,
    who, who type, flags and access mask, in the same order. *)
Theorem round_trip_encode_decode (acl : NFS4ACL) :
  Forall valid_ace (aceList acl) ->
  Forall who_fits (aceList acl) ->
  len (aceList acl) < 2 ^ 32 ->
  4 + wire_size (aceList acl) <= MaxInt ->
  last_who_nonempty (aceList acl) ->
  exists xattr,
    PackXAttr acl = Done (xattr, None) /\
    XAttrLoad xattr (isDirectory acl) = Done (acl, None).
Proof.
  intros Hvalid Hfits Hcount Hmax Hlast.
  exists (wire_acl (aceList acl)). split; [apply PackXAttr_wire, Hmax|].
  pose proof (wire_size_nonneg (aceList acl)) as Hw.
  pose proof (len_nonneg (aceList acl)) as Hn.
  unfold XAttrLoad. rewrite XAttrLoadCap_unfold
    by (unfold wire_acl; rewrite len_app, len_be32, len_wire_entries; lia).
  assert (Hcnt : atom_at (wire_acl (aceList acl)) 0 = len (aceList acl)).
  { unfold wire_acl. rewrite (atom_at_0 _ (uint32 (uint32 (len (aceList acl)))));
      [rewrite !uint32_small; unfold is_uint32; rewrite ?uint32_small; unfold is_uint32; lia
      |apply Uint32_be32]. }
  rewrite Hcnt. unfold len at 1. rewrite Nat2Z.id.
  unfold wire_acl.
  change 4 with (len (be32 (uint32 (len (aceList acl))))) at 1.
  rewrite XAttrLoad_loop_wire by (assumption || (rewrite len_be32; lia)).
  cbn [go_bind fst snd app]. destruct acl. reflexivity.
Qed.

Lemma round_trip_encode_decode_witness :
  let acl := mkACL true [NewNFS4ACE 1 0x0b 0x16019f "";
                         NewNFS4ACE 0 0x40 0x1200a9 "staff@example.org"] in
  exists xattr,
    PackXAttr acl = Done (xattr, None) /\
    XAttrLoad xattr (isDirectory acl) = Done (acl, None).
Proof.
  intros acl. apply (round_trip_encode_decode acl).
  - repeat constructor; cbn; lia.
  - repeat constructor; unfold who_fits, strlen; cbn; lia.
  - unfold len. cbn. lia.
  - unfold MaxInt. vm_compute. discriminate.
  - unfold last_who_nonempty. cbn. discriminate.
Defined.

(** A who string of 2^32 bytes: [PackXAttr] stores [uint32(whoLen)], which
    is 0, and [XAttrLoad] reads back an entry with the empty who string. *)
Lemma long_who_decodes_empty (t f m : Z) (who : string) (isDir : bool) :
  is_uint32 t -> is_uint32 f -> is_uint32 m -> strlen who = 2 ^ 32 ->
  let acl := mkACL isDir [NewNFS4ACE t f m who] in
  PackXAttr acl = Done (wire_acl (aceList acl), None) /\
  XAttrLoad (wire_acl (aceList acl)) isDir =
    Done (mkACL isDir [NewNFS4ACE t f m EmptyString], None).
Proof.
  intros Ht Hf Hm Hlen acl. unfold acl. cbn [aceList].
  set (ace := NewNFS4ACE t f m who).
  assert (Hp : padded_length (strlen (Who ace)) = 2 ^ 32)
    by (cbn [ace Who NewNFS4ACE]; rewrite Hlen; reflexivity).
  assert (Hsz : wire_size [ace] = 16 + 2 ^ 32)
    by (cbn [wire_size]; rewrite Hp; lia).
  split.
  - apply PackXAttr_wire. cbn [aceList]. fold ace. rewrite Hsz. unfold MaxInt. lia.
  - fold ace. unfold wire_acl.
    set (value := be32 (uint32 (len [ace])) ++ wire_entries [ace]).
    assert (Hv : len value = 4 + 16 + 2 ^ 32)
      by (unfold value; rewrite len_app, len_be32, len_wire_entries, Hsz; lia).
    unfold XAttrLoad. rewrite XAttrLoadCap_unfold by lia.
    assert (Hcnt : atom_at value 0 = 1).
    { unfold value. erewrite atom_at_0; [|apply Uint32_be32]. reflexivity. }
    rewrite Hcnt. change (Z.to_nat 1) with 1%nat.
    destruct (wire_entry_atoms (be32 (uint32 (len [ace]))) [] ace) as (A0 & A4 & A8 & A12).
    cbn [wire_entries] in value. fold value in A0, A4, A8, A12.
    rewrite len_be32 in A0, A4, A8, A12.
    change (4 + 4) with 8 in A4. change (4 + 8) with 12 in A8. change (4 + 12) with 16 in A12.
    cbn [ace AceType Flags AccessMask Who NewNFS4ACE] in A0, A4, A8, A12.
    rewrite uint32_small in A0, A4, A8 by assumption.
    assert (A12' : atom_at value 16 = 0) by (rewrite A12, Hlen; reflexivity).
    rewrite XAttrLoad_loop_step;
      change (4 + 4) with 8; change (4 + 8) with 12; change (4 + 12) with 16;
      change (4 + 16) with 20; rewrite ?A12';
      change (padded_length 0) with 0; try (unfold MaxInt; lia).
    rewrite A0, A4, A8.
    rewrite slice_cap_within by lia.
    replace (Z.to_nat (20 + 0 - 20)) with 0%nat by lia. rewrite take_0.
    change (20 + 0) with 20.
    cbn [go_bind XAttrLoad_loop app fst snd string_of_list_byte map string_of_list_ascii].
    reflexivity.
Qed.

Lemma long_who_round_trip_fails (who : string) :
  strlen who = 2 ^ 32 ->
  exists xattr acl',
    PackXAttr (mkACL false [NewNFS4ACE 0 0 2 who]) = Done (xattr, None) /\
    XAttrLoad xattr false = Done (acl', None) /\
    aceList acl' <> [NewNFS4ACE 0 0 2 who].
Proof.
  intros Hlen.
  destruct (long_who_decodes_empty 0 0 2 who false) as [Hp Hl];
    try (unfold is_uint32; lia); try exact Hlen.
  eexists. eexists. split; [exact Hp|]. split; [exact Hl|].
  cbn [aceList]. intros Heq.
  assert (Hw : Who (NewNFS4ACE 0 0 2 EmptyString) = Who (NewNFS4ACE 0 0 2 who))
    by congruence.
  cbn [Who NewNFS4ACE] in Hw. rewrite <- Hw in Hlen. discriminate Hlen.
Qed.

Lemma strlen_long_who : strlen long_who = 2 ^ 32.
Proof.
  unfold long_who, strlen. rewrite length_string_of_list_byte, length_replicate.
  apply Z2Nat.id. lia.
Qed.

(** C2, the claim as stated: the entry of an ACL whose who string is 2^32
    bytes long comes back with the empty who string. *)
Lemma round_trip_truncates_long_who :
  exists xattr acl',
    PackXAttr (mkACL false [NewNFS4ACE 0 0 2 long_who]) = Done (xattr, None) /\
    XAttrLoad xattr false = Done (acl', None) /\
    aceList acl' <> [NewNFS4ACE 0 0 2 long_who].
Proof. exact (long_who_round_trip_fails long_who strlen_long_who). Qed.

(** The round trip also fails where the code slips: an ACL whose last
    entry has the empty who string is encoded, and decoding the result is
    refused, for with exactly four atoms left the test
    [curAtom + 4*ATOM_SIZE >= maxAtom] holds. *)
Lemma round_trip_fails_on_empty_last_who :
  let acl := mkACL false [NewNFS4ACE 0 0 2 ""] in
  exists xattr,
    PackXAttr acl = Done (xattr, None) /\
    length xattr = 20%nat /\
    XAttrLoad xattr (isDirectory acl) =
      Done (mkACL false [], Some (errors_New "buffer overflow")).
Proof.
  eexists. split; [vm_compute; reflexivity|]. split; vm_compute; reflexivity.
Qed.

(** ** Re-encoding a decoded buffer *)

Lemma Uint32_Done_len (b : list byte) (v : Z) : Uint32 b = Done v -> 4 <= len b.
Proof.
  destruct b as [|b0 [|b1 [|b2 [|b3 rest]]]]; try discriminate.
  intros _. unfold len. cbn [length]. lia.
Qed.

Lemma be32_take (b : list byte) (v : Z) : Uint32 b = Done v -> be32 v = take 4 b.
Proof.
  destruct b as [|b0 [|b1 [|b2 [|b3 rest]]]]; try discriminate.
  intros H. apply be32_Uint32 in H. rewrite H. reflexivity.
Qed.

Lemma be32_atom_at (value : list byte) (k : Z) :
  0 <= k -> k + 4 <= len value ->
  be32 (atom_at value k) = take 4 (drop (Z.to_nat k) value).
Proof. intros Hk Hlen. apply be32_take, Uint32_drop; assumption. Qed.

Lemma forallb_zero (l : list byte) :
  forallb (Byte.eqb x00) l = true -> l = replicate (length l) x00.
Proof.
  induction l as [|b l IH]; [reflexivity|]. cbn [forallb length replicate].
  intros H. apply andb_prop in H as [Hb Hl].
  apply Byte.byte_dec_bl in Hb. rewrite <- Hb, <- IH by exact Hl. reflexivity.
Qed.

(** A canonical layout never runs past the end of the buffer. *)
Lemma canonical_from_le (todo : nat) (value : list byte) :
  forall cur, 0 <= cur -> canonical_from todo value cur = true -> cur <= len value.
Proof.
  induction todo as [|todo IH]; intros cur Hcur H; cbn [canonical_from] in H.
  - apply Z.eqb_eq in H. lia.
  - destruct (Uint32 _) as [whoLen|] eqn:E; [|discriminate].
    apply andb_prop in H as [_ H].
    pose proof (Uint32_is_uint32 _ _ E) as Hw. unfold is_uint32 in Hw.
    pose proof (padded_length_bounds whoLen ltac:(lia)) as [Hp _].
    apply IH in H; lia.
Qed.

(** A list cut at the boundaries of an entry: four atoms, [w] who bytes,
    the padding up to [p], and the rest. *)
Lemma split_entry {A} (l : list A) (w p : nat) :
  (w <= p)%nat ->
  l = take 4 l ++ take 4 (drop 4 l) ++ take 4 (drop 8 l) ++ take 4 (drop 12 l) ++
      take w (drop 16 l) ++ take (p - w) (drop (16 + w) l) ++ drop (16 + p) l.
Proof.
  intros Hwp.
  assert (E1 : take 4 l ++ drop 4 l = l) by apply take_drop.
  assert (E2 : take 4 (drop 4 l) ++ drop 8 l = drop 4 l)
    by (pose proof (take_drop 4 (drop 4 l)) as E; rewrite drop_drop in E; exact E).
  assert (E3 : take 4 (drop 8 l) ++ drop 12 l = drop 8 l)
    by (pose proof (take_drop 4 (drop 8 l)) as E; rewrite drop_drop in E; exact E).
  assert (E4 : take 4 (drop 12 l) ++ drop 16 l = drop 12 l)
    by (pose proof (take_drop 4 (drop 12 l)) as E; rewrite drop_drop in E; exact E).
  assert (E5 : take w (drop 16 l) ++ drop (16 + w) l = drop 16 l)
    by (pose proof (take_drop w (drop 16 l)) as E; rewrite drop_drop in E; exact E).
  assert (E6 : take (p - w) (drop (16 + w) l) ++ drop (16 + p) l = drop (16 + w) l).
  { pose proof (take_drop (p - w) (drop (16 + w) l)) as E. rewrite drop_drop in E.
    replace (16 + w + (p - w))%nat with (16 + p)%nat in E by lia. exact E. }
  rewrite E6, E5, E4, E3, E2, E1. reflexivity.
Qed.

(** The bytes of an entry in a buffer are the wire format of the ACE the
    decoder builds from them, provided the padding bytes are zero. *)
Lemma wire_entry_of_buffer (value : list byte) (cur : Z) :
  let whoLen := atom_at value (cur + 12) in
  let who := take (Z.to_nat whoLen) (drop (Z.to_nat (cur + 16)) value) in
  0 <= cur -> cur + 16 + padded_length whoLen <= len value ->
  forallb (Byte.eqb x00)
          (take (Z.to_nat (cur + 16 + padded_length whoLen - (cur + 16 + whoLen)))
                (drop (Z.to_nat (cur + 16 + whoLen)) value)) = true ->
  drop (Z.to_nat cur) value =
  wire_entry (NewNFS4ACE (atom_at value cur) (atom_at value (cur + 4))
                         (atom_at value (cur + 8)) (string_of_list_byte who)) ++
  drop (Z.to_nat (cur + 16 + padded_length whoLen)) value.
Proof.
  intros whoLen who Hcur Hlen Hzero.
  pose proof (atom_at_is_uint32 value (cur + 12)) as Hw. fold whoLen in Hw.
  unfold is_uint32 in Hw.
  pose proof (padded_length_bounds whoLen ltac:(lia)) as [Hp _].
  set (p := padded_length whoLen) in *.
  assert (Hwho : length who = Z.to_nat whoLen).
  { unfold who. rewrite length_take_le; [reflexivity|].
    rewrite length_drop. unfold len in Hlen. lia. }
  assert (Hstr : strlen (string_of_list_byte who) = whoLen).
  { unfold strlen. rewrite length_string_of_list_byte, Hwho. lia. }
  unfold wire_entry. cbn [AceType Flags AccessMask Who NewNFS4ACE].
  rewrite Hstr, list_byte_of_string_of_list_byte, (uint32_small whoLen)
    by (unfold is_uint32; lia).
  fold p. unfold whoLen at 1.
  rewrite !be32_atom_at by lia.
  apply forallb_zero in Hzero.
  rewrite length_take_le in Hzero by (rewrite length_drop; unfold len in Hlen; lia).
  replace (cur + 16 + p - (cur + 16 + whoLen)) with (p - whoLen) in Hzero by lia.
  rewrite <- Hzero. unfold who.
  set (l := drop (Z.to_nat cur) value).
  replace (drop (Z.to_nat (cur + 4)) value) with (drop 4 l)
    by (unfold l; rewrite drop_drop; f_equal; lia).
  replace (drop (Z.to_nat (cur + 8)) value) with (drop 8 l)
    by (unfold l; rewrite drop_drop; f_equal; lia).
  replace (drop (Z.to_nat (cur + 12)) value) with (drop 12 l)
    by (unfold l; rewrite drop_drop; f_equal; lia).
  replace (drop (Z.to_nat (cur + 16)) value) with (drop 16 l)
    by (unfold l; rewrite drop_drop; f_equal; lia).
  replace (drop (Z.to_nat (cur + 16 + whoLen)) value)
    with (drop (16 + Z.to_nat whoLen) l)
    by (unfold l; rewrite drop_drop; f_equal; lia).
  replace (drop (Z.to_nat (cur + 16 + p)) value) with (drop (16 + Z.to_nat p) l)
    by (unfold l; rewrite drop_drop; f_equal; lia).
  replace (Z.to_nat (p - whoLen)) with (Z.to_nat p - Z.to_nat whoLen)%nat by lia.
  rewrite <- !app_assoc. apply split_entry. lia.
Qed.

(** Decoding a canonical buffer: the entries the loop appends are as many as
    announced, and their wire format is the rest of the buffer. *)
Lemma XAttrLoad_loop_canonical (todo : nat) (value spare : list byte) :
  forall (cur : Z) (acc aces : list NFS4ACE),
    0 <= cur -> len value <= MaxInt ->
    canonical_from todo value cur = true ->
    XAttrLoad_loop todo value spare cur acc = Done (aces, None) ->
    exists new, aces = acc ++ new /\ length new = todo /\
                drop (Z.to_nat cur) value = wire_entries new.
Proof.
  induction todo as [|todo IH]; intros cur acc aces Hcur Hmax Hcan Hload.
  - cbn [canonical_from XAttrLoad_loop] in *. apply Z.eqb_eq in Hcan.
    injection Hload as <-. exists []. rewrite app_nil_r. repeat split.
    cbn [wire_entries]. apply drop_ge. unfold len in Hcan. lia.
  - pose proof (canonical_from_le _ _ _ Hcur Hcan) as Hle.
    cbn [canonical_from] in Hcan.
    destruct (Uint32 _) as [whoLen|] eqn:E; [|discriminate].
    apply andb_prop in Hcan as [Hzero Hcan].
    pose proof (Uint32_Done_len _ _ E) as H4.
    unfold len in H4. rewrite length_drop in H4.
    assert (Hw : atom_at value (cur + 12) = whoLen) by (unfold atom_at; now rewrite E).
    pose proof (Uint32_is_uint32 _ _ E) as Hr. unfold is_uint32 in Hr.
    pose proof (padded_length_bounds whoLen ltac:(lia)) as [Hp _].
    assert (Hend : cur + 16 + padded_length whoLen <= len value)
      by (apply canonical_from_le in Hcan; lia).
    destruct (Z.eq_dec (cur + 16) (len value)) as [Heq|Hne].
    { rewrite XAttrLoad_loop_short in Hload by lia. discriminate. }
    pose proof (XAttrLoad_loop_step todo value spare cur acc) as Hstep.
    cbv zeta in Hstep. rewrite Hw in Hstep.
    rewrite Hstep in Hload by (unfold len in *; lia). clear Hstep.
    rewrite slice_cap_within in Hload by lia. cbn [go_bind] in Hload.
    replace (cur + 16 + whoLen - (cur + 16)) with whoLen in Hload by lia.
    apply IH in Hload as (new & -> & Hlen & Hdrop); [|lia|exact Hmax|exact Hcan].
    eexists (_ :: new). rewrite <- app_assoc. split; [reflexivity|].
    split; [cbn [length]; now rewrite Hlen|].
    cbn [wire_entries]. rewrite <- Hdrop.
    pose proof (wire_entry_of_buffer value cur) as Hwire. cbv zeta in Hwire.
    rewrite Hw in Hwire. apply Hwire; [exact Hcur|exact Hend|exact Hzero].
Qed.

(** C3, amended: for every buffer that [XAttrLoad] accepts without error
    and that is canonical (the padding bytes behind every who string are
    zero and the last entry ends where the buffer ends), [PackXAttr] of the
    decoded ACL succeeds and returns the buffer byte for byte. The length of
    a Go slice is an [int]. *)
Theorem decode_encode_canonical (b : list byte) (isDir : bool) (acl : NFS4ACL) :
  len b <= MaxInt ->
  canonical b = true ->
  XAttrLoad b isDir = Done (acl, None) ->
  PackXAttr acl = Done (b, None).
Proof.
  intros Hmax Hcan Hload. unfold canonical in Hcan.
  destruct (Uint32 b) as [n|] eqn:En; [|discriminate].
  pose proof (Uint32_Done_len _ _ En) as H4.
  pose proof (Uint32_is_uint32 _ _ En) as Hn. unfold is_uint32 in Hn.
  unfold XAttrLoad in Hload. rewrite XAttrLoadCap_unfold in Hload by exact H4.
  rewrite (atom_at_0 _ _ En) in Hload.
  destruct (XAttrLoad_loop _ _ _ _ _) as [[aces err]|] eqn:El; [|discriminate].
  cbn [go_bind fst snd] in Hload. injection Hload as <- ->.
  apply XAttrLoad_loop_canonical in El as (new & -> & Hlen & Hdrop);
    [|lia|exact Hmax|exact Hcan].
  cbn [app] in *.
  assert (Hsize : wire_size new = len b - 4).
  { rewrite <- len_wire_entries, <- Hdrop. unfold len in *. rewrite length_drop. lia. }
  rewrite PackXAttr_wire by (cbn [aceList]; lia).
  cbn [aceList]. unfold wire_acl.
  replace (len new) with n by (unfold len; lia).
  rewrite uint32_small by (unfold is_uint32; lia).
  rewrite (be32_take _ _ En), <- Hdrop.
  change (Z.to_nat 4) with 4%nat. rewrite take_drop. reflexivity.
Qed.

Lemma decode_encode_canonical_witness :
  let b :=
    [x00; x00; x00; x02;
     x00; x00; x00; x01;  x00; x00; x00; x0b;  x00; x16; x01; x9f;
     x00; x00; x00; x06;  x4f; x57; x4e; x45; x52; x40; x00; x00;
     x00; x00; x00; x00;  x00; x00; x00; x40;  x00; x12; x00; xa9;
     x00; x00; x00; x04;  x72; x6f; x6f; x74] in
  let acl := mkACL true [NewNFS4ACE 1 0x0b 0x16019f "OWNER@";
                         NewNFS4ACE 0 0x40 0x1200a9 "root"] in
  len b <= MaxInt /\ canonical b = true /\
  XAttrLoad b true = Done (acl, None) /\ PackXAttr acl = Done (b, None).
Proof.
  intros b acl.
  assert (Hmax : len b <= MaxInt) by (vm_compute; discriminate).
  assert (Hcan : canonical b = true) by (vm_compute; reflexivity).
  assert (Hload : XAttrLoad b true = Done (acl, None)) by (vm_compute; reflexivity).
  split; [exact Hmax|]. split; [exact Hcan|]. split; [exact Hload|].
  exact (decode_encode_canonical b true acl Hmax Hcan Hload).
Defined.

(** C3, the claim as stated: a buffer whose two padding bytes are not zero
    decodes without error, and encoding the decoded ACL gives a different
    buffer, with zero padding. *)
Lemma padding_bytes_not_reproduced :
  let b :=
    [x00; x00; x00; x01;  x00; x00; x00; x00;  x00; x00; x00; x00;
     x00; x00; x00; x02;  x00; x00; x00; x06;
     x4f; x57; x4e; x45; x52; x40; xff; xff] in
  exists acl xattr,
    XAttrLoad b false = Done (acl, None) /\
    PackXAttr acl = Done (xattr, None) /\
    xattr <> b.
Proof.
  intros b.
  exists (mkACL false [NewNFS4ACE 0 0 2 "OWNER@"]).
  exists [x00; x00; x00; x01;  x00; x00; x00; x00;  x00; x00; x00; x00;
          x00; x00; x00; x02;  x00; x00; x00; x06;
          x4f; x57; x4e; x45; x52; x40; x00; x00].
  split; [vm_compute; reflexivity|]. split; [vm_compute; reflexivity|].
  subst b. discriminate.
Qed.

(** Bytes behind the last announced entry are not reproduced either: the
    decoder stops after the announced number of entries. *)
Lemma trailing_bytes_not_reproduced :
  exists acl,
    XAttrLoad [x00; x00; x00; x00; xff] false = Done (acl, None) /\
    PackXAttr acl = Done ([x00; x00; x00; x00], None).
Proof.
  exists (mkACL false []). split; vm_compute; reflexivity.
Qed.

(** ** More on the encoder *)

Lemma wire_size_mod4 (aces : list NFS4ACE) : wire_size aces mod 4 = 0.
Proof.
  induction aces as [|ace aces IH]; cbn [wire_size]; [reflexivity|].
  pose proof (padded_length_bounds _ (strlen_nonneg (Who ace))) as [_ Hp].
  Z.div_mod_to_equations. lia.
Qed.

Lemma wire_size_count (aces : list NFS4ACE) : 16 * len aces <= wire_size aces.
Proof.
  induction aces as [|ace aces IH]; unfold len in *; cbn [wire_size length]; [lia|].
  pose proof (padded_length_bounds _ (strlen_nonneg (Who ace))) as [Hp _].
  pose proof (strlen_nonneg (Who ace)). lia.
Qed.

Lemma wire_entries_concat (aces : list NFS4ACE) :
  wire_entries aces = concat (wire_entry <$> aces).
Proof.
  induction aces as [|ace aces IH]; [reflexivity|].
  cbn [wire_entries fmap list_fmap concat]. now rewrite IH.
Qed.

(** X1. [PackXAttr] on an ACL whose encoding fits an [int]: no slice
    expression or write goes out of range and no error is returned; the
    buffer holds the entry count and then, for each entry in order, its
    type, flags, access mask and who length as big-endian atoms, the who
    bytes, and zero bytes up to the next atom boundary. *)
Theorem PackXAttr_layout (acl : NFS4ACL) :
  4 + wire_size (aceList acl) <= MaxInt ->
  PackXAttr acl =
  Done (be32 (uint32 (len (aceList acl))) ++
        concat ((fun ace =>
                   be32 (AceType ace) ++ be32 (Flags ace) ++ be32 (AccessMask ace) ++
                   be32 (uint32 (strlen (Who ace))) ++
                   list_byte_of_string (Who ace) ++
                   replicate (Z.to_nat (padded_length (strlen (Who ace)) -
                                        strlen (Who ace))) x00)
                  <$> aceList acl),
        None).
Proof.
  intros Hmax. rewrite PackXAttr_wire by exact Hmax. unfold wire_acl.
  rewrite wire_entries_concat. reflexivity.
Qed.

Lemma PackXAttr_layout_witness :
  PackXAttr (mkACL false [NewNFS4ACE 0 0 0x16019f "daemon"]) =
  Done ([x00; x00; x00; x01;  x00; x00; x00; x00;  x00; x00; x00; x00;
         x00; x16; x01; x9f;  x00; x00; x00; x06;
         x64; x61; x65; x6d; x6f; x6e; x00; x00], None).
Proof.
  rewrite (PackXAttr_layout (mkACL false [NewNFS4ACE 0 0 0x16019f "daemon"])).
  - vm_compute. reflexivity.
  - vm_compute. discriminate.
Defined.

(** X2. The buffer [PackXAttr] returns has exactly the length [XAttrSize]
    computes, which is a multiple of the atom size and at least one atom
    for the count and four for each entry. *)
Theorem PackXAttr_length (acl : NFS4ACL) (xattr : list byte) (err : option error) :
  4 + wire_size (aceList acl) <= MaxInt ->
  PackXAttr acl = Done (xattr, err) ->
  len xattr = XAttrSize acl /\
  XAttrSize acl mod ATOM_SIZE = 0 /\
  ATOM_SIZE + 4 * ATOM_SIZE * len (aceList acl) <= XAttrSize acl.
Proof.
  intros Hmax Hpack. rewrite PackXAttr_wire in Hpack by exact Hmax.
  injection Hpack as <- <-.
  rewrite XAttrSize_wire by exact Hmax.
  unfold wire_acl, ATOM_SIZE. rewrite len_app, len_be32, len_wire_entries.
  pose proof (wire_size_mod4 (aceList acl)).
  pose proof (wire_size_count (aceList acl)).
  split; [reflexivity|]. split; [Z.div_mod_to_equations; lia|lia].
Qed.

Lemma PackXAttr_length_witness :
  let acl := mkACL true [NewNFS4ACE 0 0 0x16019f "daemon"; NewNFS4ACE 1 0 2 "EVERYONE@"] in
  exists xattr,
    PackXAttr acl = Done (xattr, None) /\
    len xattr = XAttrSize acl /\
    XAttrSize acl mod ATOM_SIZE = 0 /\
    ATOM_SIZE + 4 * ATOM_SIZE * len (aceList acl) <= XAttrSize acl.
Proof.
  intros acl. eexists. split; [vm_compute; reflexivity|].
  eapply (PackXAttr_length acl).
  - vm_compute. discriminate.
  - vm_compute. reflexivity.
Defined.

Lemma forallb_replicate_zero (n : nat) : forallb (Byte.eqb x00) (replicate n x00) = true.
Proof. induction n as [|n IH]; [reflexivity|]. cbn. exact IH. Qed.

Lemma canonical_from_wire (aces : list NFS4ACE) :
  forall pre : list byte,
    Forall who_fits aces ->
    canonical_from (length aces) (pre ++ wire_entries aces) (len pre) = true.
Proof.
  induction aces as [|ace aces IH]; intros pre Hfits; cbn [length wire_entries canonical_from].
  - rewrite app_nil_r. apply Z.eqb_refl.
  - apply Forall_cons in Hfits as [Hfit Hfits]. unfold who_fits in Hfit.
    pose proof (strlen_nonneg (Who ace)) as Hs.
    pose proof (padded_length_bounds _ Hs) as [Hp _].
    pose proof (len_nonneg pre) as Hpre.
    pose proof (wire_size_nonneg aces) as Hw.
    set (value := pre ++ wire_entry ace ++ wire_entries aces).
    assert (Hlen : len value = len pre + 16 + padded_length (strlen (Who ace)) +
                               wire_size aces).
    { unfold value. rewrite !len_app, len_wire_entry, len_wire_entries. lia. }
    destruct (wire_entry_atoms pre (wire_entries aces) ace) as (_ & _ & _ & A12).
    fold value in A12.
    rewrite Uint32_drop, A12 by lia.
    rewrite (uint32_small (strlen (Who ace))) by (unfold is_uint32; lia).
    apply andb_true_intro. split.
    + replace (Z.to_nat (len pre + 16 + strlen (Who ace)))
        with (Z.to_nat (len pre + 16) + length (list_byte_of_string (Who ace)))%nat
        by (rewrite length_list_byte_of_string; unfold strlen; lia).
      rewrite <- drop_drop. unfold value. rewrite wire_entry_who.
      rewrite drop_app_length.
      rewrite take_app_length' by (rewrite length_replicate; lia).
      apply forallb_replicate_zero.
    + replace (len pre + 16 + padded_length (strlen (Who ace)))
        with (len (pre ++ wire_entry ace))
        by (rewrite len_app, len_wire_entry; lia).
      unfold value. rewrite (app_assoc pre). apply IH, Hfits.
Qed.

(** X3. The buffer [PackXAttr] returns for an ACL with fewer than 2^32
    entries and who strings shorter than 2^32 bytes is canonical: its count
    atom announces the entries it holds, every padding byte is zero and the
    last entry ends where the buffer ends. *)
Theorem PackXAttr_canonical (acl : NFS4ACL) (xattr : list byte) (err : option error) :
  4 + wire_size (aceList acl) <= MaxInt ->
  len (aceList acl) < 2 ^ 32 ->
  Forall who_fits (aceList acl) ->
  PackXAttr acl = Done (xattr, err) ->
  canonical xattr = true /\ Uint32 xattr = Done (len (aceList acl)).
Proof.
  intros Hmax Hcount Hfits Hpack. rewrite PackXAttr_wire in Hpack by exact Hmax.
  injection Hpack as <- <-.
  pose proof (len_nonneg (aceList acl)) as Hn.
  unfold canonical, wire_acl. rewrite Uint32_be32, uint32_idem.
  rewrite uint32_small by (unfold is_uint32; lia).
  split; [|reflexivity].
  unfold len at 1. rewrite Nat2Z.id.
  change 4 with (len (be32 (len (aceList acl)))).
  apply canonical_from_wire, Hfits.
Qed.

Lemma PackXAttr_canonical_witness :
  let acl := mkACL true [NewNFS4ACE 0 0 0x16019f "daemon"; NewNFS4ACE 1 0 2 ""] in
  exists xattr,
    PackXAttr acl = Done (xattr, None) /\
    canonical xattr = true /\ Uint32 xattr = Done (len (aceList acl)).
Proof.
  intros acl. eexists. split; [vm_compute; reflexivity|].
  eapply (PackXAttr_canonical acl).
  - vm_compute. discriminate.
  - vm_compute. reflexivity.
  - repeat constructor; unfold who_fits, strlen; cbn; lia.
  - vm_compute. reflexivity.
Defined.

(** ** More on the decoder *)

Lemma wire_entries_app (l k : list NFS4ACE) :
  wire_entries (l ++ k) = wire_entries l ++ wire_entries k.
Proof.
  induction l as [|ace l IH]; [reflexivity|].
  cbn [app wire_entries]. rewrite IH, app_assoc. reflexivity.
Qed.

Lemma wire_size_app (l k : list NFS4ACE) : wire_size (l ++ k) = wire_size l + wire_size k.
Proof. induction l as [|ace l IH]; cbn [app wire_size]; lia. Qed.

(** The loop reads the entries that open the rest of a buffer, whatever
    follows them, as long as something follows the header atoms of each. *)
Lemma XAttrLoad_loop_prefix (aces : list NFS4ACE) :
  forall (pre rest spare : list byte) (acc : list NFS4ACE) (k : nat),
    Forall valid_ace aces -> Forall who_fits aces ->
    rest <> [] \/ last_who_nonempty aces ->
    len pre + wire_size aces + len rest <= MaxInt ->
    XAttrLoad_loop (length aces + k) (pre ++ wire_entries aces ++ rest) spare (len pre) acc =
    XAttrLoad_loop k (pre ++ wire_entries aces ++ rest) spare
                   (len pre + wire_size aces) (acc ++ aces).
Proof.
  induction aces as [|ace aces IH]; intros pre rest spare acc k Hvalid Hfits Hlast Hmax;
    cbn [length wire_entries wire_size Nat.add] in *.
  - rewrite app_nil_r, Z.add_0_r. reflexivity.
  - apply Forall_cons in Hvalid as [(Ht & Hf & Hm & Hwt) Hvalid].
    apply Forall_cons in Hfits as [Hfit Hfits]. unfold who_fits in Hfit.
    pose proof (wire_size_nonneg aces) as Hw.
    pose proof (padded_length_bounds _ (strlen_nonneg (Who ace))) as Hp.
    pose proof (strlen_nonneg (Who ace)) as Hs.
    pose proof (len_nonneg pre) as Hpre.
    pose proof (len_nonneg rest) as Hrest.
    unfold MaxInt in Hmax.
    rewrite <- app_assoc.
    set (value := pre ++ wire_entry ace ++ wire_entries aces ++ rest).
    assert (Hlen : len value = len pre + 16 + padded_length (strlen (Who ace)) +
                               wire_size aces + len rest).
    { unfold value. rewrite !len_app, len_wire_entry, len_wire_entries. lia. }
    assert (Hmore : 0 < padded_length (strlen (Who ace)) + wire_size aces + len rest).
    { destruct Hlast as [Hne|Hlast].
      - destruct rest; [contradiction|]. unfold len. cbn [length]. lia.
      - destruct aces as [|ace' aces'].
        + unfold last_who_nonempty in Hlast. cbn in Hlast.
          destruct (Z.eq_dec (strlen (Who ace)) 0) as [H0|H0];
            [apply strlen_empty in H0; contradiction|lia].
        + cbn [wire_size].
          pose proof (padded_length_bounds _ (strlen_nonneg (Who ace'))).
          pose proof (strlen_nonneg (Who ace')). pose proof (wire_size_nonneg aces'). lia. }
    destruct (wire_entry_atoms pre (wire_entries aces ++ rest) ace) as (A0 & A4 & A8 & A12).
    fold value in A0, A4, A8, A12.
    rewrite uint32_small in A0, A4, A8, A12
      by (assumption || (unfold is_uint32; lia)).
    rewrite XAttrLoad_loop_step by (rewrite ?A12; unfold MaxInt; lia).
    rewrite A12.
    rewrite A0, A4, A8.
    rewrite slice_cap_within by lia.
    assert (Hwho : take (Z.to_nat (len pre + 16 + strlen (Who ace) - (len pre + 16)))
                     (drop (Z.to_nat (len pre + 16)) value) =
                   list_byte_of_string (Who ace)).
    { unfold value. rewrite wire_entry_who.
      rewrite take_app_length'
        by (rewrite length_list_byte_of_string; unfold strlen, len; lia).
      reflexivity. }
    rewrite Hwho. cbn [go_bind].
    rewrite string_of_list_byte_of_string, (NewNFS4ACE_eta ace Hwt).
    replace (len pre + 16 + padded_length (strlen (Who ace)))
      with (len (pre ++ wire_entry ace))
      by (rewrite len_app, len_wire_entry; lia).
    replace (len pre + (16 + padded_length (strlen (Who ace)) + wire_size aces))
      with (len (pre ++ wire_entry ace) + wire_size aces)
      by (rewrite len_app, len_wire_entry; lia).
    unfold value. rewrite (app_assoc pre).
    rewrite IH; try assumption.
    + rewrite <- (app_assoc acc [ace] aces), <- (app_assoc pre). reflexivity.
    + destruct Hlast as [Hne|Hlast]; [left; exact Hne|right].
      destruct aces as [|ace' aces']; [exact I|exact Hlast].
    + rewrite len_app, len_wire_entry. unfold MaxInt. lia.
Qed.


Lemma to_nat_len {A} (l : list A) : Z.to_nat (len l) = length l.
Proof. unfold len. apply Nat2Z.id. Qed.

Lemma XAttrLoadCap_count (n : Z) (body spare : list byte) (isDir : bool) :
  is_uint32 n ->
  XAttrLoadCap (be32 n ++ body) spare isDir =
  (r <- XAttrLoad_loop (Z.to_nat n) (be32 n ++ body) spare (len (be32 n)) [];;
   Done ({| isDirectory := isDir; aceList := fst r |}, snd r)).
Proof.
  intros Hn. pose proof (len_nonneg body).
  rewrite XAttrLoadCap_unfold by (rewrite len_app, len_be32; lia).
  rewrite (atom_at_0 _ (uint32 n)) by apply Uint32_be32.
  rewrite uint32_small by exact Hn. rewrite len_be32. reflexivity.
Qed.

(** X4. Bytes that follow the last announced entry are not looked at: the
    encoding of an ACL followed by any non-empty run of bytes decodes,
    without error, to that ACL, whatever the spare capacity of the slice
    (and here an empty last who string does no harm). *)
Theorem XAttrLoad_ignores_trailing_bytes (acl : NFS4ACL) (rest spare : list byte) :
  Forall valid_ace (aceList acl) ->
  Forall who_fits (aceList acl) ->
  len (aceList acl) < 2 ^ 32 ->
  rest <> [] ->
  4 + wire_size (aceList acl) + len rest <= MaxInt ->
  exists xattr,
    PackXAttr acl = Done (xattr, None) /\
    XAttrLoadCap (xattr ++ rest) spare (isDirectory acl) = Done (acl, None).
Proof.
  intros Hvalid Hfits Hcount Hrest Hmax.
  pose proof (len_nonneg rest) as Hr. pose proof (len_nonneg (aceList acl)) as Hn.
  exists (wire_acl (aceList acl)). split; [apply PackXAttr_wire; lia|].
  unfold wire_acl. rewrite uint32_small by (unfold is_uint32; lia).
  rewrite <- app_assoc, XAttrLoadCap_count by (unfold is_uint32; lia).
  rewrite to_nat_len.
  rewrite <- (Nat.add_0_r (length (aceList acl))).
  rewrite XAttrLoad_loop_prefix; [|assumption|assumption|left; exact Hrest
                                  |rewrite len_be32; lia].
  cbn [XAttrLoad_loop go_bind fst snd app]. destruct acl. reflexivity.
Qed.

Lemma XAttrLoad_ignores_trailing_bytes_witness :
  let acl := mkACL false [NewNFS4ACE 0 0 2 "OWNER@"; NewNFS4ACE 1 0 1 ""] in
  exists xattr,
    PackXAttr acl = Done (xattr, None) /\
    XAttrLoadCap (xattr ++ [xff]) [] (isDirectory acl) = Done (acl, None).
Proof.
  intros acl. apply (XAttrLoad_ignores_trailing_bytes acl [xff] []).
  - repeat constructor; cbn; lia.
  - repeat constructor; unfold who_fits, strlen; cbn; lia.
  - unfold len. cbn. lia.
  - discriminate.
  - vm_compute. discriminate.
Defined.

(** X5. The check before the header atoms asks for more than four atoms:
    an ACL whose last entry has the empty who string encodes to a buffer
    that ends with that entry's four atoms, and decoding it returns the
    error "buffer overflow" together with all entries but the last. *)
Theorem XAttrLoad_rejects_empty_last_who (isDir : bool) (init : list NFS4ACE)
    (last : NFS4ACE) :
  Forall valid_ace init ->
  Forall who_fits init ->
  Who last = EmptyString ->
  len (init ++ [last]) < 2 ^ 32 ->
  4 + wire_size (init ++ [last]) <= MaxInt ->
  exists xattr,
    PackXAttr (mkACL isDir (init ++ [last])) = Done (xattr, None) /\
    XAttrLoad xattr isDir = Done (mkACL isDir init, Some (errors_New "buffer overflow")).
Proof.
  intros Hvalid Hfits Hwho Hcount Hmax.
  pose proof (len_nonneg (init ++ [last])) as Hn.
  pose proof (wire_size_nonneg init) as Hw.
  assert (H16 : len (wire_entry last) = 16).
  { rewrite len_wire_entry, Hwho. reflexivity. }
  rewrite wire_size_app in Hmax. cbn [wire_size] in Hmax.
  rewrite <- len_wire_entry, H16 in Hmax.
  exists (wire_acl (init ++ [last])). split.
  { apply PackXAttr_wire. cbn [aceList]. rewrite wire_size_app. cbn [wire_size].
    rewrite <- len_wire_entry, H16. lia. }
  unfold wire_acl, XAttrLoad. rewrite uint32_small by (unfold is_uint32; lia).
  rewrite XAttrLoadCap_count by (unfold is_uint32; lia).
  rewrite to_nat_len, length_app. cbn [length].
  rewrite wire_entries_app. cbn [wire_entries]. rewrite app_nil_r.
  rewrite XAttrLoad_loop_prefix;
    [|assumption|assumption
     |left; intros E; rewrite E in H16; discriminate H16
     |rewrite len_be32, H16; lia].
  rewrite len_be32.
  rewrite XAttrLoad_loop_short.
  - cbn [go_bind fst snd app]. reflexivity.
  - lia.
  - unfold MaxInt in *. lia.
  - rewrite !len_app, len_be32, len_wire_entries, H16. lia.
Qed.

Lemma XAttrLoad_rejects_empty_last_who_witness :
  exists xattr,
    PackXAttr (mkACL true ([NewNFS4ACE 0 0 2 "OWNER@"] ++ [NewNFS4ACE 1 0 1 ""])) =
      Done (xattr, None) /\
    XAttrLoad xattr true =
      Done (mkACL true [NewNFS4ACE 0 0 2 "OWNER@"], Some (errors_New "buffer overflow")).
Proof.
  apply (XAttrLoad_rejects_empty_last_who true [NewNFS4ACE 0 0 2 "OWNER@"]
           (NewNFS4ACE 1 0 1 "")).
  - repeat constructor; cbn; lia.
  - repeat constructor; unfold who_fits, strlen; cbn; lia.
  - reflexivity.
  - unfold len. cbn. lia.
  - vm_compute. discriminate.
Defined.



(** ** The who length and the capacity of the slice *)




(** X8. On a slice without spare capacity the same read is a run-time
    panic: whenever the first entry of a buffer has its four header atoms
    and at least one byte behind them, and its who length runs past the end
    of the buffer, [XAttrLoad] panics instead of returning an error. *)
Theorem XAttrLoad_panics_on_who_overrun (value : list byte) (isDir : bool) :
  Uint32 value <> Done 0 ->
  20 < len value ->
  len value + 2 ^ 32 + 3 <= MaxInt ->
  len value - 20 < atom_at value 16 ->
  XAttrLoad value isDir = Panic.
Proof.
  intros Hn Hlen Hmax Hover.
  apply who_length_overrun_first_entry; try assumption.
  pose proof (atom_at_is_uint32 value 0) as H0. unfold is_uint32 in H0.
  destruct (Z.eq_dec (atom_at value 0) 0) as [E|E]; [|lia].
  exfalso. apply Hn. rewrite <- E. pose proof (Uint32_drop value 0) as Hd.
  cbn [Z.to_nat] in Hd. rewrite drop_0 in Hd. apply Hd; lia.
Qed.

Lemma XAttrLoad_panics_on_who_overrun_witness :
  XAttrLoad (be32 2 ++ be32 1 ++ be32 0 ++ be32 0x20 ++ be32 9 ++
             [x45; x56; x45; x52; x59; x4f; x4e; x45]) true = Panic.
Proof.
  apply XAttrLoad_panics_on_who_overrun.
  - vm_compute. discriminate.
  - vm_compute. reflexivity.
  - vm_compute. discriminate.
  - vm_compute. reflexivity.
Defined.

(** ** The nine mask methods as one map over the entries *)

Lemma mutate_ok (op : mask_op) (t : target) (acl : NFS4ACL) (accessMask : Z) :
  target_ok t = true ->
  mutate op t acl accessMask =
  (with_aceList acl
     ((fun ace => if selected t ace then mask_method op ace accessMask else ace)
        <$> aceList acl), None).
Proof.
  intros Hok. destruct t as [|w|who]; cbn [target_ok selected] in *.
  - destruct op; reflexivity.
  - destruct (whoType_guard w) eqn:Hg; [discriminate|].
    destruct op; cbn [mutate mask_method];
      unfold ApplyAccessMaskByWhoType, RemoveAccessMaskByWhoType, SetAccessMaskByWhoType;
      rewrite Hg; reflexivity.
  - destruct op; reflexivity.
Qed.

Lemma mutate_rejected (op : mask_op) (t : target) (acl : NFS4ACL) (accessMask : Z) :
  target_ok t = false ->
  exists e, mutate op t acl accessMask = (acl, Some e).
Proof.
  intros Hok. destruct t as [|w|who]; cbn [target_ok] in Hok; try discriminate.
  destruct (whoType_guard w) as [e|] eqn:Hg; [|discriminate].
  exists e. destruct op; cbn [mutate];
    unfold ApplyAccessMaskByWhoType, RemoveAccessMaskByWhoType, SetAccessMaskByWhoType;
    rewrite Hg; reflexivity.
Qed.

Lemma selected_mask_method (t : target) (op : mask_op) (ace : NFS4ACE) (m : Z) :
  selected t (mask_method op ace m) = selected t ace.
Proof. destruct t, op; reflexivity. Qed.

Lemma with_aceList_twice (acl : NFS4ACL) (l k : list NFS4ACE) :
  with_aceList (with_aceList acl l) k = with_aceList acl k.
Proof. reflexivity. Qed.

(** Two mask operations with the same target, one after the other, are one
    operation when they are so on the mask of every entry. *)
Lemma mutate_twice (op1 op2 op3 : mask_op) (t : target) (acl : NFS4ACL) (m1 m2 m3 : Z) :
  Forall (fun ace => mask_method op2 (mask_method op1 ace m1) m2 = mask_method op3 ace m3)
         (aceList acl) ->
  fst (mutate op2 t (fst (mutate op1 t acl m1)) m2) = fst (mutate op3 t acl m3).
Proof.
  intros Hall. destruct (target_ok t) eqn:Hok.
  - rewrite !mutate_ok by exact Hok. cbn [fst aceList with_aceList].
    unfold with_aceList. cbn [isDirectory aceList]. f_equal.
    rewrite <- list_fmap_compose. apply Forall_fmap_ext.
    eapply Forall_impl; [exact Hall|]. intros ace Hace. cbn.
    destruct (selected t ace) eqn:Hs.
    + rewrite selected_mask_method, Hs. exact Hace.
    + rewrite Hs. reflexivity.
  - destruct (mutate_rejected op1 t acl m1 Hok) as (e1 & ->).
    destruct (mutate_rejected op3 t acl m3 Hok) as (e3 & ->). cbn [fst].
    destruct (mutate_rejected op2 t acl m2 Hok) as (e2 & ->). reflexivity.
Qed.

Lemma ldiff_lor_same (a m : Z) : Z.ldiff (Z.lor a m) m = Z.ldiff a m.
Proof.
  apply Z.bits_inj'. intros i Hi. rewrite !Z.ldiff_spec, Z.lor_spec.
  destruct (Z.testbit a i), (Z.testbit m i); reflexivity.
Qed.

Lemma lor_ldiff_same (a m : Z) : Z.lor (Z.ldiff a m) m = Z.lor a m.
Proof.
  apply Z.bits_inj'. intros i Hi. rewrite !Z.lor_spec, Z.ldiff_spec.
  destruct (Z.testbit a i), (Z.testbit m i); reflexivity.
Qed.

Lemma lor_lor_same (a m : Z) : Z.lor (Z.lor a m) m = Z.lor a m.
Proof. rewrite <- Z.lor_assoc, Z.lor_diag. reflexivity. Qed.

Lemma ldiff_ldiff_same (a m : Z) : Z.ldiff (Z.ldiff a m) m = Z.ldiff a m.
Proof.
  apply Z.bits_inj'. intros i Hi. rewrite !Z.ldiff_spec.
  destruct (Z.testbit a i), (Z.testbit m i); reflexivity.
Qed.

(** X9. How the mask methods compose, for ACEs with 32-bit masks, a 32-bit
    operand and any one way of targeting: removing a mask after applying it
    is removing it, applying it after removing it is applying it, each of
    the three operations done twice is the operation done once, and a set
    makes any operation before it irrelevant. *)
Theorem mask_methods_compose (t : target) (acl : NFS4ACL) (m : Z) :
  Forall valid_ace (aceList acl) -> is_uint32 m ->
  fst (mutate OpRemove t (fst (mutate OpApply t acl m)) m) = fst (mutate OpRemove t acl m) /\
  fst (mutate OpApply t (fst (mutate OpRemove t acl m)) m) = fst (mutate OpApply t acl m) /\
  (forall op, fst (mutate op t (fst (mutate op t acl m)) m) = fst (mutate op t acl m)) /\
  (forall op m', fst (mutate OpSet t (fst (mutate op t acl m')) m) =
                 fst (mutate OpSet t acl m)).
Proof.
  intros Hvalid Hm.
  assert (Hmask : Forall (fun ace => is_uint32 (AccessMask ace)) (aceList acl)).
  { eapply Forall_impl; [exact Hvalid|]. intros ace (_ & _ & H & _). exact H. }
  assert (H0 : 0 <= m) by (unfold is_uint32 in Hm; lia).
  split; [|split; [|split]].
  - apply mutate_twice. eapply Forall_impl; [exact Hmask|]. intros ace Ha.
    cbn [mask_method]. unfold removeAccessMask, applyAccessMask, or32.
    cbn [AccessMask with_AccessMask].
    rewrite !andnot32_ldiff by (try apply lor_is_uint32; assumption).
    rewrite ldiff_lor_same. reflexivity.
  - apply mutate_twice. eapply Forall_impl; [exact Hmask|]. intros ace Ha.
    cbn [mask_method]. unfold removeAccessMask, applyAccessMask, or32.
    cbn [AccessMask with_AccessMask].
    rewrite !andnot32_ldiff by assumption.
    rewrite lor_ldiff_same. reflexivity.
  - intros op. apply mutate_twice. eapply Forall_impl; [exact Hmask|]. intros ace Ha.
    destruct op; cbn [mask_method];
      unfold removeAccessMask, applyAccessMask, setAccessMask, or32;
      cbn [AccessMask with_AccessMask].
    + rewrite lor_lor_same. reflexivity.
    + rewrite !andnot32_ldiff by (try apply ldiff_is_uint32; assumption).
      rewrite ldiff_ldiff_same. reflexivity.
    + reflexivity.
  - intros op m'. apply mutate_twice. apply Forall_forall. intros ace _.
    destruct op; reflexivity.
Qed.

Lemma mask_methods_compose_witness :
  let acl := mkACL false [NewNFS4ACE 0 0 0x35 "OWNER@"; NewNFS4ACE 1 0 0x16 "bob"] in
  fst (mutate OpRemove (TargetWho "bob") (fst (mutate OpApply (TargetWho "bob") acl 0x03))
              0x03) =
  fst (mutate OpRemove (TargetWho "bob") acl 0x03).
Proof.
  intros acl. apply (mask_methods_compose (TargetWho "bob") acl 0x03).
  - repeat constructor; cbn; lia.
  - unfold is_uint32. lia.
Defined.

(** X10. On an ACL whose ACEs carry the who type of their who string,
    targeting a special who by its type and targeting it by its string are
    the same call, for each of the three operations: the by-who-type
    methods are the by-who methods for "OWNER@", "GROUP@" and "EVERYONE@". *)
Theorem by_who_type_is_by_who (op : mask_op) (acl : NFS4ACL) (accessMask : Z) :
  Forall (fun ace => WhoType ace = AceGetWhoType (Who ace)) (aceList acl) ->
  mutate op (TargetWhoType NFS4_ACL_WHO_OWNER) acl accessMask =
    mutate op (TargetWho NFS4_ACL_WHO_OWNER_STRING) acl accessMask /\
  mutate op (TargetWhoType NFS4_ACL_WHO_GROUP) acl accessMask =
    mutate op (TargetWho NFS4_ACL_WHO_GROUP_STRING) acl accessMask /\
  mutate op (TargetWhoType NFS4_ACL_WHO_EVERYONE) acl accessMask =
    mutate op (TargetWho NFS4_ACL_WHO_EVERYONE_STRING) acl accessMask.
Proof.
  intros Hwt.
  assert (Hsel : forall w who,
            (forall s, (AceGetWhoType s =? w) = String.eqb s who) ->
            target_ok (TargetWhoType w) = true ->
            mutate op (TargetWhoType w) acl accessMask =
            mutate op (TargetWho who) acl accessMask).
  { intros w who Heq Hok. rewrite (mutate_ok op (TargetWhoType w)) by exact Hok.
    rewrite (mutate_ok op (TargetWho who)) by reflexivity.
    do 2 f_equal. apply Forall_fmap_ext.
    eapply Forall_impl; [exact Hwt|]. intros ace Hace. cbn [selected].
    rewrite Hace, Heq. reflexivity. }
  assert (Hcases : forall s,
            (AceGetWhoType s =? 1) = String.eqb s "OWNER@" /\
            (AceGetWhoType s =? 2) = String.eqb s "GROUP@" /\
            (AceGetWhoType s =? 3) = String.eqb s "EVERYONE@").
  { intros s. unfold AceGetWhoType, NFS4_ACL_WHO_OWNER_STRING, NFS4_ACL_WHO_GROUP_STRING,
      NFS4_ACL_WHO_EVERYONE_STRING.
    destruct (String.eqb_spec s "OWNER@") as [->|]; [repeat split|].
    destruct (String.eqb_spec s "GROUP@") as [->|]; [repeat split|].
    destruct (String.eqb_spec s "EVERYONE@") as [->|]; repeat split. }
  split; [|split]; apply Hsel; try reflexivity; intros s; apply Hcases.
Qed.

Lemma by_who_type_is_by_who_witness :
  let acl := mkACL true [NewNFS4ACE 0 0 0x35 "GROUP@"; NewNFS4ACE 0 0 0x35 "group@"] in
  mutate OpSet (TargetWhoType NFS4_ACL_WHO_GROUP) acl 0x1200a9 =
  mutate OpSet (TargetWho NFS4_ACL_WHO_GROUP_STRING) acl 0x1200a9.
Proof.
  intros acl. apply (by_who_type_is_by_who OpSet acl 0x1200a9).
  repeat constructor.
Defined.

Lemma XAttrSize_fold_ext (l k : list NFS4ACE) (a : Z) :
  Forall2 (fun x y => Who x = Who y) l k ->
  fold_left (fun xAttrSize ace =>
               let xAttrSize := int (xAttrSize + int (ATOM_SIZE * 4)) in
               int (xAttrSize + AceWhoStringAtomLength (strlen (Who ace)))) l a =
  fold_left (fun xAttrSize ace =>
               let xAttrSize := int (xAttrSize + int (ATOM_SIZE * 4)) in
               int (xAttrSize + AceWhoStringAtomLength (strlen (Who ace)))) k a.
Proof.
  intros H. revert a. induction H as [|x y l k Hxy _ IH]; intros a; [reflexivity|].
  cbn [fold_left]. rewrite Hxy. apply IH.
Qed.

Lemma wire_size_ext (l k : list NFS4ACE) :
  Forall2 (fun x y => Who x = Who y) l k -> wire_size l = wire_size k.
Proof.
  induction 1 as [|x y l k Hxy _ IH]; [reflexivity|].
  cbn [wire_size]. rewrite Hxy, IH. reflexivity.
Qed.

Lemma mask_method_valid (op : mask_op) (ace : NFS4ACE) (m : Z) :
  valid_ace ace -> is_uint32 m -> valid_ace (mask_method op ace m).
Proof.
  intros (Ht & Hf & Hm & Hw) Hop. unfold valid_ace.
  assert (H : is_uint32 (AccessMask (mask_method op ace m))).
  { destruct op; cbn [mask_method];
      unfold applyAccessMask, removeAccessMask, setAccessMask, or32;
      cbn [AccessMask with_AccessMask].
    - apply lor_is_uint32; assumption.
    - rewrite andnot32_ldiff by exact Hm. apply ldiff_is_uint32; [exact Hm|].
      unfold is_uint32 in Hop. lia.
    - exact Hop. }
  split; [|split; [|split]]; [| |exact H|]; destruct op; assumption.
Qed.

(** X11. What the nine mask methods keep: called with a 32-bit operand on
    an ACL of well-formed ACEs they leave an ACL of well-formed ACEs, whose
    encoding has the size of the encoding before the call, whether the call
    is accepted or rejected. *)
Theorem mutation_keeps_encoding_size (op : mask_op) (t : target) (acl : NFS4ACL) (m : Z) :
  Forall valid_ace (aceList acl) -> is_uint32 m ->
  let acl' := fst (mutate op t acl m) in
  Forall valid_ace (aceList acl') /\
  XAttrSize acl' = XAttrSize acl /\
  wire_size (aceList acl') = wire_size (aceList acl).
Proof.
  intros Hvalid Hm acl'. subst acl'. destruct (target_ok t) eqn:Hok.
  - rewrite mutate_ok by exact Hok. cbn [fst aceList with_aceList].
    set (g := fun ace => if selected t ace then mask_method op ace m else ace).
    assert (Hwho : Forall2 (fun x y => Who x = Who y) (g <$> aceList acl) (aceList acl)).
    { apply Forall2_fmap_l, Forall_Forall2_diag, Forall_forall. intros ace _.
      unfold compose, g. cbv beta. destruct (selected t ace); [|reflexivity].
      destruct op; reflexivity. }
    split; [|split].
    + apply Forall_fmap. eapply Forall_impl; [exact Hvalid|]. intros ace Hace.
      unfold compose, g. cbv beta. destruct (selected t ace); [|exact Hace].
      apply mask_method_valid; assumption.
    + unfold XAttrSize. cbn [aceList]. apply XAttrSize_fold_ext, Hwho.
    + apply wire_size_ext, Hwho.
  - destruct (mutate_rejected op t acl m Hok) as (e & ->). cbn [fst].
    repeat split; try reflexivity. exact Hvalid.
Qed.

Lemma mutation_keeps_encoding_size_witness :
  let acl := mkACL false [NewNFS4ACE 0 0 0x35 "OWNER@"; NewNFS4ACE 1 0 0x16 "bob"] in
  let acl' := fst (mutate OpRemove TargetAll acl NFS4_ACE_WRITE_DATA) in
  Forall valid_ace (aceList acl') /\
  XAttrSize acl' = XAttrSize acl /\
  wire_size (aceList acl') = wire_size (aceList acl).
Proof.
  intros acl. apply (mutation_keeps_encoding_size OpRemove TargetAll acl NFS4_ACE_WRITE_DATA).
  - repeat constructor; cbn; lia.
  - unfold is_uint32, NFS4_ACE_WRITE_DATA. lia.
Defined.

(** ** The flag methods of an ACE *)

(** X12. The three flag methods: a bit of the flags is set after
    [applyFlags] when it was set or is set in the operand, after
    [removeFlags] when it was set and is not set in the operand, after
    [setFlags] when it is set in the operand; the results are 32-bit; no
    other field changes, and a flag method and a mask method can be called
    in either order. *)
Theorem flag_methods_semantics (ace : NFS4ACE) (flags : Z) :
  is_uint32 (Flags ace) -> is_uint32 flags ->
  (forall i, 0 <= i ->
     Z.testbit (Flags (applyFlags ace flags)) i =
       Z.testbit (Flags ace) i || Z.testbit flags i /\
     Z.testbit (Flags (removeFlags ace flags)) i =
       Z.testbit (Flags ace) i && negb (Z.testbit flags i) /\
     Z.testbit (Flags (setFlags ace flags)) i = Z.testbit flags i) /\
  (is_uint32 (Flags (applyFlags ace flags)) /\
   is_uint32 (Flags (removeFlags ace flags)) /\
   is_uint32 (Flags (setFlags ace flags))) /\
  (forall g, g = applyFlags \/ g = removeFlags \/ g = setFlags ->
     AceType (g ace flags) = AceType ace /\ Who (g ace flags) = Who ace /\
     WhoType (g ace flags) = WhoType ace /\ AccessMask (g ace flags) = AccessMask ace /\
     forall op m, mask_method op (g ace flags) m = g (mask_method op ace m) flags).
Proof.
  intros Hf Ho.
  unfold applyFlags, removeFlags, setFlags, or32.
  split; [|split].
  - intros i Hi. cbn [Flags with_Flags].
    rewrite andnot32_ldiff by exact Hf.
    rewrite Z.lor_spec, Z.ldiff_spec. repeat split.
  - cbn [Flags with_Flags]. rewrite andnot32_ldiff by exact Hf.
    split; [apply lor_is_uint32; assumption|].
    split; [apply ldiff_is_uint32; [assumption|unfold is_uint32 in Ho; lia]|exact Ho].
  - intros g [-> | [-> | ->]]; repeat split; intros op m; destruct op; reflexivity.
Qed.

Lemma flag_methods_semantics_witness :
  let ace := NewNFS4ACE 0 0x0b 0x16019f "staff" in
  Z.testbit (Flags (applyFlags ace NFS4_ACE_IDENTIFIER_GROUP)) 6 = true /\
  Z.testbit (Flags (removeFlags ace NFS4_ACE_INHERIT_ONLY_ACE)) 3 = false /\
  Z.testbit (Flags (setFlags ace NFS4_ACE_IDENTIFIER_GROUP)) 0 = false.
Proof.
  intros ace.
  assert (Hf : is_uint32 (Flags ace)) by (unfold is_uint32; cbn; lia).
  assert (H6 : is_uint32 NFS4_ACE_IDENTIFIER_GROUP)
    by (vm_compute; split; [discriminate|reflexivity]).
  assert (H3 : is_uint32 NFS4_ACE_INHERIT_ONLY_ACE)
    by (vm_compute; split; [discriminate|reflexivity]).
  split; [|split].
  - rewrite (proj1 (proj1 (flag_methods_semantics ace _ Hf H6) 6 ltac:(lia))).
    reflexivity.
  - rewrite (proj1 (proj2 (proj1 (flag_methods_semantics ace _ Hf H3) 3 ltac:(lia)))).
    reflexivity.
  - rewrite (proj2 (proj2 (proj1 (flag_methods_semantics ace _ Hf H6) 0 ltac:(lia)))).
    reflexivity.
Defined.

(** ** The write helpers of the earlier revision *)

(** X13. [SetWrite] and [ClearWrite] are [ApplyAccessMask] and
    [RemoveAccessMask] with the mask WRITE_DATA: after [SetWrite] bit 1 of
    every access mask is set, after [ClearWrite] it is clear, every other
    bit of a 32-bit mask and every other field is as before, and
    [ClearWrite] undoes [SetWrite] on every mask that did not have the bit. *)
Theorem SetWrite_ClearWrite (acl : NFS4ACL) :
  Forall (fun ace => is_uint32 (AccessMask ace)) (aceList acl) ->
  SetWrite acl = ApplyAccessMask acl NFS4_ACE_WRITE_DATA /\
  ClearWrite acl = RemoveAccessMask acl NFS4_ACE_WRITE_DATA /\
  (forall i ace, aceList acl !! i = Some ace ->
     exists s c,
       aceList (SetWrite acl) !! i = Some s /\ aceList (ClearWrite acl) !! i = Some c /\
       Z.testbit (AccessMask s) 1 = true /\ Z.testbit (AccessMask c) 1 = false /\
       (forall j, 0 <= j -> j <> 1 ->
          Z.testbit (AccessMask s) j = Z.testbit (AccessMask ace) j /\
          Z.testbit (AccessMask c) j = Z.testbit (AccessMask ace) j) /\
       s = with_AccessMask ace (AccessMask s) /\ c = with_AccessMask ace (AccessMask c)) /\
  (Forall (fun ace => Z.testbit (AccessMask ace) 1 = false) (aceList acl) ->
   ClearWrite (SetWrite acl) = acl).
Proof.
  intros Hmask. split; [reflexivity|]. split; [reflexivity|].
  assert (Hbit : forall j, 0 <= j -> Z.testbit NFS4_ACE_WRITE_DATA j = (j =? 1)).
  { intros j Hj. change NFS4_ACE_WRITE_DATA with (2 ^ 1).
    rewrite Z.pow2_bits_eqb by lia. rewrite Z.eqb_sym. reflexivity. }
  split.
  - intros i ace Hi.
    assert (Ha : is_uint32 (AccessMask ace)).
    { rewrite Forall_forall in Hmask. apply Hmask. eapply list_elem_of_lookup_2, Hi. }
    eexists. eexists. unfold SetWrite, ClearWrite. cbn [aceList with_aceList].
    rewrite !list_lookup_fmap, Hi. cbn [fmap option_fmap option_map].
    split; [reflexivity|]. split; [reflexivity|].
    cbn [AccessMask with_AccessMask]. unfold or32. rewrite andnot32_ldiff by exact Ha.
    split; [rewrite Z.lor_spec, Hbit by lia; apply orb_true_r|].
    split; [rewrite Z.ldiff_spec, Hbit by lia; apply andb_false_r|].
    split; [|split; reflexivity].
    intros j Hj Hne. rewrite Z.lor_spec, Z.ldiff_spec, Hbit by lia.
    destruct (Z.eqb_spec j 1); [contradiction|].
    rewrite orb_false_r, andb_true_r. split; reflexivity.
  - intros Hclear. unfold ClearWrite, SetWrite. cbn [aceList with_aceList].
    rewrite <- list_fmap_compose.
    transitivity (with_aceList acl (id <$> aceList acl));
      [|rewrite list_fmap_id; apply with_aceList_same].
    f_equal. apply Forall_fmap_ext.
    rewrite Forall_forall in Hmask, Hclear |- *. intros ace Hin.
    specialize (Hmask ace Hin). specialize (Hclear ace Hin).
    unfold compose, or32. cbn [AccessMask with_AccessMask AceType Who WhoType Flags].
    rewrite andnot32_ldiff
      by (apply lor_is_uint32; [exact Hmask|unfold is_uint32, NFS4_ACE_WRITE_DATA; lia]).
    rewrite ldiff_lor_same.
    assert (Hsame : Z.ldiff (AccessMask ace) NFS4_ACE_WRITE_DATA = AccessMask ace).
    { apply Z.bits_inj'. intros j Hj. rewrite Z.ldiff_spec, Hbit by lia.
      destruct (Z.eqb_spec j 1) as [->|]; [rewrite Hclear; reflexivity|].
      apply andb_true_r. }
    rewrite Hsame. destruct ace. reflexivity.
Qed.

Lemma SetWrite_ClearWrite_witness :
  let acl := mkACL false [NewNFS4ACE 0 0 0x35 "OWNER@"; NewNFS4ACE 1 0 0x14 "bob"] in
  ClearWrite (SetWrite acl) = acl.
Proof.
  intros acl. apply (SetWrite_ClearWrite acl).
  - repeat constructor; unfold is_uint32; cbn; lia.
  - repeat constructor.
Defined.

(** ** Reading, changing and writing back *)

Lemma canonical_decode_wire (b : list byte) (isDir : bool) (acl : NFS4ACL) :
  len b <= MaxInt -> canonical b = true -> XAttrLoad b isDir = Done (acl, None) ->
  b = wire_acl (aceList acl) /\ len (aceList acl) < 2 ^ 32.
Proof.
  intros Hmax Hcan Hload. unfold canonical in Hcan.
  destruct (Uint32 b) as [n|] eqn:En; [|discriminate].
  pose proof (Uint32_Done_len _ _ En) as H4.
  pose proof (Uint32_is_uint32 _ _ En) as Hn. unfold is_uint32 in Hn.
  unfold XAttrLoad in Hload. rewrite XAttrLoadCap_unfold in Hload by exact H4.
  rewrite (atom_at_0 _ _ En) in Hload.
  destruct (XAttrLoad_loop _ _ _ _ _) as [[aces err]|] eqn:El; [|discriminate].
  cbn [go_bind fst snd] in Hload. injection Hload as <- ->.
  apply XAttrLoad_loop_canonical in El as (new & -> & Hlen & Hdrop);
    [|lia|exact Hmax|exact Hcan].
  cbn [app aceList] in *.
  assert (Hcount : len new = n) by (unfold len; lia).
  split; [|lia].
  unfold wire_acl. rewrite Hcount, uint32_small by (unfold is_uint32; lia).
  rewrite (be32_take _ _ En), <- Hdrop.
  change (Z.to_nat 4) with 4%nat. rewrite take_drop. reflexivity.
Qed.

Lemma mutate_same_who (op : mask_op) (t : target) (acl : NFS4ACL) (m : Z) :
  Forall2 (fun x y => Who x = Who y) (aceList (fst (mutate op t acl m))) (aceList acl).
Proof.
  destruct (target_ok t) eqn:Hok.
  - rewrite mutate_ok by exact Hok. cbn [fst aceList with_aceList].
    apply Forall2_fmap_l, Forall_Forall2_diag, Forall_forall. intros ace _.
    unfold compose. cbv beta. destruct (selected t ace); [|reflexivity].
    destruct op; reflexivity.
  - destruct (mutate_rejected op t acl m Hok) as (e & ->). cbn [fst].
    apply Forall_Forall2_diag, Forall_forall. intros ace _. reflexivity.
Qed.

(** X14. Read, change, write back: when a canonical buffer decodes without
    error and any of the nine mask methods is called on the ACL, accepted or
    not, [PackXAttr] of the result succeeds with a buffer of the length of
    the one decoded and with the same entry count atom: the methods change
    masks only, never the size of the attribute. *)
Theorem read_modify_write_size (b : list byte) (isDir : bool) (acl : NFS4ACL)
    (op : mask_op) (t : target) (m : Z) :
  len b <= MaxInt ->
  canonical b = true ->
  XAttrLoad b isDir = Done (acl, None) ->
  exists xattr,
    PackXAttr (fst (mutate op t acl m)) = Done (xattr, None) /\
    len xattr = len b /\
    take 4 xattr = take 4 b.
Proof.
  intros Hmax Hcan Hload.
  destruct (canonical_decode_wire b isDir acl Hmax Hcan Hload) as [Hb Hcount].
  pose proof (mutate_same_who op t acl m) as Hwho.
  pose proof (wire_size_ext _ _ Hwho) as Hsize.
  pose proof (Forall2_length _ _ _ Hwho) as Hlen.
  assert (Hlb : len b = 4 + wire_size (aceList acl)).
  { rewrite Hb at 1. unfold wire_acl. rewrite len_app, len_be32, len_wire_entries.
    reflexivity. }
  exists (wire_acl (aceList (fst (mutate op t acl m)))).
  split; [apply PackXAttr_wire; lia|]. split.
  - unfold wire_acl. rewrite len_app, len_be32, len_wire_entries. lia.
  - rewrite Hb. unfold wire_acl, len. rewrite Hlen. reflexivity.
Qed.

Lemma read_modify_write_size_witness :
  let b :=
    [x00; x00; x00; x01;  x00; x00; x00; x00;  x00; x00; x00; x00;
     x00; x16; x01; x9f;  x00; x00; x00; x06;
     x4f; x57; x4e; x45; x52; x40; x00; x00] in
  exists xattr,
    PackXAttr (fst (mutate OpRemove TargetAll (mkACL false [NewNFS4ACE 0 0 0x16019f "OWNER@"])
                      NFS4_ACE_WRITE_DATA)) = Done (xattr, None) /\
    len xattr = len b /\
    take 4 xattr = take 4 b.
Proof.
  intros b.
  apply (read_modify_write_size b false (mkACL false [NewNFS4ACE 0 0 0x16019f "OWNER@"])).
  - vm_compute. discriminate.
  - vm_compute. reflexivity.
  - vm_compute. reflexivity.
Defined.

(** ** How many entries a buffer can yield *)

Lemma XAttrLoad_loop_bound (todo : nat) (value spare : list byte) :
  forall (cur : Z) (acc aces : list NFS4ACE) (err : option error),
    0 <= cur -> cur <= len value + 2 ^ 32 + 19 ->
    len value + 2 ^ 32 + 40 <= MaxInt ->
    XAttrLoad_loop todo value spare cur acc = Done (aces, err) ->
    exists new,
      aces = acc ++ new /\ (length new <= todo)%nat /\
      (err = None -> length new = todo) /\
      (new <> [] -> cur + 16 * len new < len value).
Proof.
  induction todo as [|todo IH]; intros cur acc aces err Hcur Hhi Hmax Hload.
  - cbn [XAttrLoad_loop] in Hload. injection Hload as <- <-.
    exists []. rewrite app_nil_r. repeat split; try reflexivity.
    intros H. contradiction.
  - unfold MaxInt in Hmax.
    destruct (Z.lt_ge_cases (cur + 16) (len value)) as [Hlt|Hge].
    + pose proof (atom_at_is_uint32 value (cur + 12)) as Hw. unfold is_uint32 in Hw.
      pose proof (padded_length_bounds (atom_at value (cur + 12)) ltac:(lia)) as [Hp _].
      pose proof (XAttrLoad_loop_step todo value spare cur acc) as Hstep.
      cbv zeta in Hstep. rewrite Hstep in Hload by (unfold MaxInt; lia). clear Hstep.
      apply go_bind_Done_inv in Hload as (b & _ & Hload).
      apply IH in Hload as (new & -> & Hle & Hnone & Hbound); [|lia|lia|unfold MaxInt; lia].
      eexists (_ :: new). rewrite <- app_assoc. split; [reflexivity|].
      cbn [length]. split; [lia|]. split; [intros E; rewrite (Hnone E); reflexivity|].
      intros _. unfold len in *. cbn [length].
      destruct new as [|a new]; [cbn [length]; lia|].
      specialize (Hbound ltac:(discriminate)). cbn [length] in *. lia.
    + rewrite XAttrLoad_loop_short in Hload by (unfold MaxInt; lia).
      injection Hload as <- <-. exists []. rewrite app_nil_r.
      split; [reflexivity|]. split; [cbn [length]; lia|].
      split; [discriminate|]. intros H. contradiction.
Qed.

(** X15. However large the announced count, decoding never returns more
    entries than announced nor more than the buffer has room for: each
    returned entry accounts for four atoms of the buffer behind the count
    atom (and one more byte), whether or not an error is returned and
    whatever the spare capacity; without an error the entries are exactly as
    many as announced. *)
Theorem XAttrLoad_entry_bound (value spare : list byte) (isDir : bool) (acl : NFS4ACL)
    (err : option error) :
  len value + 2 ^ 32 + 40 <= MaxInt ->
  XAttrLoadCap value spare isDir = Done (acl, err) ->
  isDirectory acl = isDir /\
  len (aceList acl) <= atom_at value 0 /\
  (err = None -> len (aceList acl) = atom_at value 0) /\
  (aceList acl = [] \/ 4 + 16 * len (aceList acl) < len value).
Proof.
  intros Hmax Hload.
  pose proof (atom_at_is_uint32 value 0) as Hn. unfold is_uint32 in Hn.
  destruct (Z.lt_ge_cases (len value) 4) as [Hshort|H4].
  - unfold XAttrLoadCap, ATOM_SIZE in Hload.
    destruct (Z.ltb_spec (len value) 4); [|lia].
    injection Hload as <- <-. cbn [isDirectory aceList]. unfold len at 1 2. cbn [length].
    repeat split; try lia; try discriminate. left. reflexivity.
  - rewrite XAttrLoadCap_unfold in Hload by lia.
    apply go_bind_Done_inv in Hload as ([aces e] & Hloop & Hret).
    cbn [fst snd] in Hret. injection Hret as <- <-. cbn [isDirectory aceList].
    pose proof (len_nonneg value).
    apply XAttrLoad_loop_bound in Hloop as (new & -> & Hle & Hnone & Hbound);
      [|lia|lia|exact Hmax].
    cbn [app]. split; [reflexivity|]. split; [unfold len; lia|].
    split; [intros E; unfold len; rewrite (Hnone E); lia|].
    destruct new as [|a new]; [left; reflexivity|right].
    apply Hbound. discriminate.
Qed.

Lemma XAttrLoad_entry_bound_witness :
  let value := be32 1000 ++ wire_entries [NewNFS4ACE 0 0 2 "OWNER@"] in
  exists acl err,
    XAttrLoadCap value [] false = Done (acl, err) /\
    len (aceList acl) <= atom_at value 0 /\
    (aceList acl = [] \/ 4 + 16 * len (aceList acl) < len value).
Proof.
  intros value.
  assert (Hload : XAttrLoadCap value [] false =
                  Done (mkACL false [NewNFS4ACE 0 0 2 "OWNER@"],
                        Some (errors_New "buffer overflow"))).
  { vm_compute. reflexivity. }
  eexists. eexists. split; [exact Hload|].
  assert (Hmax : len value + 2 ^ 32 + 40 <= MaxInt) by (vm_compute; discriminate).
  destruct (XAttrLoad_entry_bound value [] false _ _ Hmax Hload) as (_ & H1 & _ & H2).
  split; [exact H1|exact H2].
Defined.
